(** * akavas-public: the CIDR coverage checker and the Elastiflow extractor

    A shallow embedding of [check_cidr_coverage.py] and [elastic_flow.py]
    and the properties of the two scripts.

    Python values are modelled as follows.
    - A [str] is the sequence of its Unicode code points.
    - An [int] is a [Z]; a [len] is a [nat].
    - An exception is a constructor of [exn]; an expression that may
      raise has a [result] type, and a statement that also prints or
      talks to the outside has type [io], which collects the events in
      program order next to the result.
    - [sys.exit(n)] raises [SystemExit n], as it does in Python. *)

From Stdlib Require Import String Ascii ZArith NArith List Bool Lia.
From Stdlib Require Import PrimFloat FloatOps SpecFloat Uint63.
Import ListNotations.

Local Open Scope Z_scope.

(** ** Python runtime *)

Module Py.

Definition str := list N.

(** [lit] turns an ASCII literal into a [str]. *)
Definition lit (s : string) : str :=
  List.map N_of_ascii (list_ascii_of_string s).
Arguments lit s%_string.

Definition str_eqb (a b : str) : bool :=
  if list_eq_dec N.eq_dec a b then true else false.

Inductive exn :=
| ValueError
| TypeError
| ZeroDivisionError
| AttributeError
| EOFError
| FileNotFoundError
| OSError
| UnicodeDecodeError
| CsvError
| RequestException
| SystemExit (code : Z).

Inductive result (A : Type) :=
| Ok (a : A)
| Raise (e : exn).
Arguments Ok {A} a.
Arguments Raise {A} e.

Definition rbind {A B} (m : result A) (f : A -> result B) : result B :=
  match m with
  | Ok a => f a
  | Raise e => Raise e
  end.

(** [except ValueError:] around an expression. *)
Definition except_ValueError {A} (m : result A) (handler : result A)
  : result A :=
  match m with
  | Raise ValueError => handler
  | _ => m
  end.

(** Statements: the events emitted so far, and how the statement ended. *)
Definition io (E A : Type) : Type := list E * result A.

Definition ret {E A} (a : A) : io E A := ([], Ok a).

Definition bind {E A B} (m : io E A) (f : A -> io E B) : io E B :=
  match m with
  | (t, Ok a) => let (t', r) := f a in (t ++ t', r)
  | (t, Raise e) => (t, Raise e)
  end.

Definition emit {E} (e : E) : io E unit := ([e], Ok tt).

Definition raise {E A} (e : exn) : io E A := ([], Raise e).

Definition lift {E A} (r : result A) : io E A := ([], r).

Definition sys_exit {E A} (code : Z) : io E A := raise (SystemExit code).

(** The exit status of the process, given how the script's top level ended:
    0 on normal completion, the argument of [sys.exit], and 1 when an
    exception reaches the top level. *)
Definition exit_status {A} (r : result A) : Z :=
  match r with
  | Ok _ => 0
  | Raise (SystemExit n) => n
  | Raise _ => 1
  end.

(** [s.split(sep)] for a one-character separator. *)
Fixpoint split (sep : N) (s : str) : list str :=
  match s with
  | [] => [[]]
  | c :: s' =>
      if N.eqb c sep then [] :: split sep s'
      else match split sep s' with
           | [] => [[c]]
           | p :: ps => (c :: p) :: ps
           end
  end.

(** [c in s] for a character [c]. *)
Definition contains (c : N) (s : str) : bool := existsb (N.eqb c) s.

(** [str.isspace] on one character (the Unicode white space of CPython). *)
Definition isspace (c : N) : bool :=
  ((9 <=? c) && (c <=? 13) || (28 <=? c) && (c <=? 32)
   || (c =? 133) || (c =? 160) || (c =? 5760)
   || (8192 <=? c) && (c <=? 8202)
   || (c =? 8232) || (c =? 8233) || (c =? 8239) || (c =? 8287)
   || (c =? 12288))%N.

Fixpoint lstrip (s : str) : str :=
  match s with
  | [] => []
  | c :: s' => if isspace c then lstrip s' else s
  end.

Definition rstrip (s : str) : str := rev (lstrip (rev s)).

(** [s.strip()] *)
Definition strip (s : str) : str := rstrip (lstrip s).

Definition startswith (c : N) (s : str) : bool :=
  match s with
  | [] => false
  | d :: _ => N.eqb d c
  end.

(** [sep.join(parts)] *)
Fixpoint join (sep : str) (parts : list str) : str :=
  match parts with
  | [] => []
  | [p] => p
  | p :: ps => p ++ sep ++ join sep ps
  end.

Definition isdigit (c : N) : bool := ((48 <=? c) && (c <=? 57))%N.

(** [int(s, 10)] on a string of ASCII digits. *)
Definition int_of_digits (s : str) : Z :=
  fold_left (fun acc c => 10 * acc + (Z.of_N c - 48)) s 0.

(** [str(n)] for a Python [int]. *)
Fixpoint digits_of_pos (fuel : nat) (n : Z) (acc : str) : str :=
  match fuel with
  | O => acc
  | S fuel' =>
      let acc' := Z.to_N (48 + n mod 10) :: acc in
      if n <? 10 then acc' else digits_of_pos fuel' (n / 10) acc'
  end.

Definition str_of_int (n : Z) : str :=
  if n <? 0
  then 45%N :: digits_of_pos (S (Z.to_nat (Z.log2 (- n)))) (- n) []
  else digits_of_pos (S (Z.to_nat (Z.log2 n))) n [].

(** *** Floating point

    A Python [float] is an IEEE 754 binary64 number, here the primitive
    [float].  [a / b] on two [int]s raises [ZeroDivisionError] when [b] is
    zero; for operands below [2^53] in absolute value (every [len] is) the
    quotient is the binary64 division of the two converted operands. *)

Definition float_of_int (n : Z) : float := PrimFloat.of_uint63 (Uint63.of_Z n).

Definition true_div (a b : Z) : result float :=
  if b =? 0 then Raise ZeroDivisionError
  else Ok (PrimFloat.div (float_of_int a) (float_of_int b)).

(** [round(x * 10)] to the nearest integer, ties to even, on the exact
    value [m * 2^e] of a finite float. *)
Definition tenths (m : positive) (e : Z) : Z :=
  let num := if 0 <=? e then Zpos m * 2 ^ e * 10 else Zpos m * 10 in
  let den := if 0 <=? e then 1 else 2 ^ (- e) in
  let q := num / den in
  let r := num mod den in
  if (den <? 2 * r) || ((den =? 2 * r) && Z.odd q) then q + 1 else q.

(** [f"{x:.1f}"] *)
Definition format_1f (x : float) : str :=
  let minus (s : bool) : str := if s then [45%N] else [] in
  match Prim2SF x with
  | S754_zero s => minus s ++ lit "0.0"
  | S754_infinity s => minus s ++ lit "inf"
  | S754_nan => lit "nan"
  | S754_finite s m e =>
      let t := tenths m e in
      minus s ++ str_of_int (t / 10) ++ [46%N] ++ str_of_int (t mod 10)
  end.

End Py.

Import Py.

Declare Scope py_scope.
Delimit Scope py_scope with py.
Notation "x <- m ;; k" := (rbind m (fun x => k))
  (at level 61, m at next level, right associativity) : py_scope.
Notation "' x <~ m ;; k" := (bind m (fun x => k))
  (at level 61, x pattern, m at next level, right associativity) : py_scope.
Notation "m ;;; k" := (bind m (fun _ => k))
  (at level 61, right associativity) : py_scope.
Local Open Scope py_scope.

(** ** The [ipaddress] module of the Python standard library

    Only the part the checker uses: address and network objects, their
    comparisons, and [ip_network(s, strict=False)].  An address object is
    its version and its integer value; a network object is its network
    address and its prefix length, from which net mask, host mask and
    broadcast address are computed as the library computes them.  Zone
    identifiers of IPv6 addresses (RFC 4007) are outside this model. *)

Module IpAddress.

Inductive ipversion := IPv4 | IPv6.

Definition ipversion_eqb (a b : ipversion) : bool :=
  match a, b with
  | IPv4, IPv4 | IPv6, IPv6 => true
  | _, _ => false
  end.

Record address := { a_version : ipversion; a_ip : Z }.

Record network := { network_address : address; prefixlen : Z }.

Definition version (n : network) : ipversion := a_version (network_address n).

Definition max_prefixlen (v : ipversion) : Z :=
  match v with IPv4 => 32 | IPv6 => 128 end.

Definition ALL_ONES (v : ipversion) : Z := 2 ^ max_prefixlen v - 1.

(** [_ip_int_from_prefix] *)
Definition ip_int_from_prefix (v : ipversion) (prefixlen : Z) : Z :=
  Z.lxor (ALL_ONES v) (Z.shiftr (ALL_ONES v) prefixlen).

Definition netmask (n : network) : address :=
  {| a_version := version n;
     a_ip := ip_int_from_prefix (version n) (prefixlen n) |}.

Definition hostmask (n : network) : address :=
  {| a_version := version n;
     a_ip := Z.lxor (a_ip (netmask n)) (ALL_ONES (version n)) |}.

Definition broadcast_address (n : network) : address :=
  {| a_version := version n;
     a_ip := Z.lor (a_ip (network_address n)) (a_ip (hostmask n)) |}.

(** [_BaseAddress.__eq__] *)
Definition address_eq (a b : address) : bool :=
  (a_ip a =? a_ip b) && ipversion_eqb (a_version a) (a_version b).

(** [_BaseAddress.__lt__]: addresses of different versions do not compare. *)
Definition address_lt (a b : address) : result bool :=
  if negb (ipversion_eqb (a_version a) (a_version b)) then Raise TypeError
  else if negb (a_ip a =? a_ip b) then Ok (a_ip a <? a_ip b)
  else Ok false.

(** [<=] and [>=] as [functools.total_ordering] derives them from [__lt__]. *)
Definition address_le (a b : address) : result bool :=
  lt <- address_lt a b ;; Ok (lt || address_eq a b).

Definition address_ge (a b : address) : result bool :=
  lt <- address_lt a b ;; Ok (negb lt).

(** [_BaseNetwork.__eq__] *)
Definition network_eq (a b : network) : bool :=
  ipversion_eqb (version a) (version b)
  && address_eq (network_address a) (network_address b)
  && (a_ip (netmask a) =? a_ip (netmask b)).

(** [_BaseNetwork.subnet_of] (Python 3.7 and later). *)
Definition subnet_of (a b : network) : result bool :=
  if negb (ipversion_eqb (version a) (version b)) then Raise TypeError
  else
    c <- address_le (network_address b) (network_address a) ;;
    if c then address_ge (broadcast_address b) (broadcast_address a)
    else Ok false.

(** *** Parsing

    [parse_network] follows [IPv4Network(s, strict=False)] and
    [IPv6Network(s, strict=False)] of CPython 3.11 on strings: [None]
    stands for [AddressValueError] and [NetmaskValueError]. *)

Definition dot : N := 46.
Definition colon : N := 58.
Definition slash : N := 47.

Definition is_empty (s : str) : bool :=
  match s with [] => true | _ => false end.

(** [IPv4Address._parse_octet] *)
Definition parse_octet (octet_str : str) : option Z :=
  if is_empty octet_str then None
  else if negb (forallb isdigit octet_str) then None
  else if (3 <? length octet_str)%nat then None
  else if negb (str_eqb octet_str (lit "0")) && startswith 48 octet_str
  then None
  else
    let octet_int := int_of_digits octet_str in
    if 255 <? octet_int then None else Some octet_int.

Fixpoint from_bytes_big (acc : Z) (bs : list (option Z)) : option Z :=
  match bs with
  | [] => Some acc
  | None :: _ => None
  | Some b :: bs' => from_bytes_big (256 * acc + b) bs'
  end.

(** [IPv4Address._ip_int_from_string] *)
Definition v4_ip_int_from_string (ip_str : str) : option Z :=
  if is_empty ip_str then None
  else
    let octets := split dot ip_str in
    if negb (length octets =? 4)%nat then None
    else from_bytes_big 0 (List.map parse_octet octets).

(** [_prefix_from_prefix_string] *)
Definition prefix_from_prefix_string (v : ipversion) (prefixlen_str : str)
  : option Z :=
  if is_empty prefixlen_str || negb (forallb isdigit prefixlen_str) then None
  else
    let prefixlen := int_of_digits prefixlen_str in
    if prefixlen <=? max_prefixlen v then Some prefixlen else None.

(** [_count_righthand_zero_bits] *)
Fixpoint count_zero_bits (bits : nat) (number : Z) : Z :=
  match bits with
  | O => 0
  | S bits' =>
      if Z.testbit number 0 then 0
      else 1 + count_zero_bits bits' (Z.shiftr number 1)
  end.

Definition count_righthand_zero_bits (number bits : Z) : Z :=
  if number =? 0 then bits else count_zero_bits (Z.to_nat bits) number.

(** [_prefix_from_ip_int] *)
Definition prefix_from_ip_int (v : ipversion) (ip_int : Z) : option Z :=
  let trailing_zeroes := count_righthand_zero_bits ip_int (max_prefixlen v) in
  let prefixlen := max_prefixlen v - trailing_zeroes in
  let leading_ones := Z.shiftr ip_int trailing_zeroes in
  let all_ones := Z.shiftl 1 prefixlen - 1 in
  if leading_ones =? all_ones then Some prefixlen else None.

(** [_prefix_from_ip_string]: a dotted net mask, or else a host mask. *)
Definition prefix_from_ip_string (ip_str : str) : option Z :=
  match v4_ip_int_from_string ip_str with
  | None => None
  | Some ip_int =>
      match prefix_from_ip_int IPv4 ip_int with
      | Some p => Some p
      | None => prefix_from_ip_int IPv4 (Z.lxor ip_int (ALL_ONES IPv4))
      end
  end.

(** [_split_addr_prefix] on a string: the address, and the mask if one is
    written. *)
Definition split_addr_prefix (address : str) : option (str * option str) :=
  match split slash address with
  | [addr] => Some (addr, None)
  | [addr; mask] => Some (addr, Some mask)
  | _ => None
  end.

(** [IPv4Network._make_netmask] *)
Definition v4_make_netmask (mask : option str) : option Z :=
  match mask with
  | None => Some (max_prefixlen IPv4)
  | Some arg =>
      match prefix_from_prefix_string IPv4 arg with
      | Some p => Some p
      | None => prefix_from_ip_string arg
      end
  end.

(** The end of both constructors with [strict=False]: host bits are
    masked off. *)
Definition make_network (v : ipversion) (packed prefixlen : Z) : network :=
  {| network_address :=
       {| a_version := v;
          a_ip := Z.land packed (ip_int_from_prefix v prefixlen) |};
     prefixlen := prefixlen |}.

Definition IPv4Network (address : str) : option network :=
  match split_addr_prefix address with
  | None => None
  | Some (addr, mask) =>
      match v4_ip_int_from_string addr, v4_make_netmask mask with
      | Some packed, Some p => Some (make_network IPv4 packed p)
      | _, _ => None
      end
  end.

Definition is_hex_digit (c : N) : bool :=
  (isdigit c || (97 <=? c) && (c <=? 102) || (65 <=? c) && (c <=? 70))%N.

Definition hex_value (c : N) : Z :=
  if isdigit c then Z.of_N c - 48
  else if (97 <=? c)%N then Z.of_N c - 87
  else Z.of_N c - 55.

(** [IPv6Address._parse_hextet] *)
Definition parse_hextet (hextet_str : str) : option Z :=
  if negb (forallb is_hex_digit hextet_str) then None
  else if (4 <? length hextet_str)%nat then None
  else if is_empty hextet_str then None
  else Some (fold_left (fun acc c => 16 * acc + hex_value c) hextet_str 0).

(** ['%x' % n] *)
Fixpoint hex_of_pos (fuel : nat) (n : Z) (acc : str) : str :=
  match fuel with
  | O => acc
  | S fuel' =>
      let d := n mod 16 in
      let c := Z.to_N (if d <? 10 then 48 + d else 87 + d) in
      if n <? 16 then c :: acc else hex_of_pos fuel' (n / 16) (c :: acc)
  end.

Definition hex (n : Z) : str := hex_of_pos (S (Z.to_nat (Z.log2 n))) n [].

Definition shift_hextets (acc : option Z) (ps : list str) : option Z :=
  fold_left
    (fun acc p =>
       match acc, parse_hextet p with
       | Some a, Some h => Some (Z.lor (Z.shiftl a 16) h)
       | _, _ => None
       end) ps acc.

(** The search for ['::']: the indices [1 .. len-2] whose part is empty. *)
Fixpoint skip_indices (i : nat) (inner : list str) : list nat :=
  match inner with
  | [] => []
  | p :: inner' =>
      if is_empty p then i :: skip_indices (S i) inner'
      else skip_indices (S i) inner'
  end.

(** [IPv6Address._ip_int_from_string] *)
Definition v6_ip_int_from_string (ip_str : str) : option Z :=
  if is_empty ip_str then None
  else
    let parts := split colon ip_str in
    if (length parts <? 3)%nat then None
    else
      let last_part := last parts [] in
      let parts' :=
        if contains dot last_part
        then match v4_ip_int_from_string last_part with
             | None => None
             | Some ipv4_int =>
                 Some (removelast parts
                       ++ [hex (Z.land (Z.shiftr ipv4_int 16) 65535);
                           hex (Z.land ipv4_int 65535)])
             end
        else Some parts in
      match parts' with
      | None => None
      | Some parts =>
          let n := length parts in
          if (9 <? n)%nat then None
          else
            let first_empty := is_empty (hd [] parts) in
            let last_empty := is_empty (last parts []) in
            match skip_indices 1 (removelast (tl parts)) with
            | _ :: _ :: _ => None
            | [skip_index] =>
                let parts_hi := skip_index in
                let parts_lo := (n - skip_index - 1)%nat in
                if first_empty && negb (parts_hi - 1 =? 0)%nat then None
                else if last_empty && negb (parts_lo - 1 =? 0)%nat then None
                else
                  let parts_hi :=
                    if first_empty then (parts_hi - 1)%nat else parts_hi in
                  let parts_lo :=
                    if last_empty then (parts_lo - 1)%nat else parts_lo in
                  if (8 <=? parts_hi + parts_lo)%nat then None
                  else
                    let parts_skipped := (8 - (parts_hi + parts_lo))%nat in
                    match shift_hextets (Some 0) (firstn parts_hi parts) with
                    | None => None
                    | Some hi =>
                        shift_hextets
                          (Some (Z.shiftl hi (16 * Z.of_nat parts_skipped)))
                          (skipn (n - parts_lo) parts)
                    end
            | [] =>
                if negb (n =? 8)%nat then None
                else if first_empty || last_empty then None
                else shift_hextets (Some 0) parts
            end
      end.

Definition IPv6Network (address : str) : option network :=
  match split_addr_prefix address with
  | None => None
  | Some (addr, mask) =>
      let prefix :=
        match mask with
        | None => Some (max_prefixlen IPv6)
        | Some arg => prefix_from_prefix_string IPv6 arg
        end in
      match v6_ip_int_from_string addr, prefix with
      | Some packed, Some p => Some (make_network IPv6 packed p)
      | _, _ => None
      end
  end.

(** [ip_network(address, strict=False)]: IPv4 is tried first. *)
Definition parse_network (address : str) : option network :=
  match IPv4Network address with
  | Some n => Some n
  | None => IPv6Network address
  end.

End IpAddress.

Import IpAddress.

(** ** check_cidr_coverage.py *)

Module CidrCoverage.

(** What the script reads: for each file name, what [open] and the
    iteration over the file do.  [Readable text failure] is a file whose
    decoded text up to the first failure is [text] (decoded as UTF-8, so
    that a byte order mark is still its first character), read to its end
    when [failure] is [None] and interrupted by that exception otherwise. *)
Inductive file_state :=
| OpenFails (e : exn)
| Readable (text : str) (failure : option exn).

Record world := {
  files : str -> file_state;
  (** [datetime.datetime.now()] rendered as [%Y%m%d_%H%M%S] at line 95 and as
      [%Y-%m-%d %H:%M:%S] at line 103 *)
  now_compact : str;
  now_long : str
}.

(** The text of [get_ip_range]: both ends of the range, or the sentinel. *)
Inductive ip_range :=
| Range (first last : address)
| InvalidCIDR.

(** The lines the script prints, one constructor per call of print. *)
Inductive line :=
| InvalidCidrSkipped (cidr_part : str)
| FileNotFound (filename : str)
| ErrorReading (filename : str) (e : exn)
| RequiresPython36
| CurrentPythonVersion
| PythonVersion
| UsingBuiltinSubnetOf
| UsingCompatibility
| Separator
| MsRoutesLoaded (n : nat)
| ErRoutesLoaded (n : nat)
| SummaryHeading
| TotalErRoutes (n : nat)
| CoveredByMs (n : nat)
| NotCoveredByMs (n : nat)
| UncoveredHeading
| UncoveredRoute (route : str) (route_range : ip_range)
| AllCovered
| CoveredHeading
| CoveredPair (er_route : str) (er_range : ip_range)
              (ms_route : option str) (ms_range : ip_range)
| AndMore (n : nat)
| LogWrittenTo (log_filename : str)
| LogFileSize (log_filename : str).

(** What [write_log_file] writes, one constructor per block of
    [log_file.write] calls. *)
Inductive log_item :=
| LogHeader (date ms_file : str) (n_ms : nat) (er_file : str) (n_er : nat)
| LogTotals (total covered uncovered : nat)
| LogCoveragePercentage (text : str)
| LogCoveredHeading
| LogCoveredRow (er_route : str) (er_range : ip_range)
                (ms_route : str) (ms_range : ip_range)
| LogCoveredTotal (total : nat)
| LogUncoveredTable (rows : list (str * ip_range)) (total : nat)
| LogUncoveredNone
| LogInputContents (ms_file : str) (ms_rows : list (str * ip_range))
                   (er_file : str) (er_rows : list (str * ip_range))
| LogEnd.

Inductive event :=
| Stdout (l : line)
| LogWrite (log_filename : str) (item : log_item).

Definition comma : N := 44.
Definition arrow : N := 8594.
Definition BOM : N := 65279.

(** The codec [utf-8-sig]: a leading byte order mark is dropped. *)
Definition utf_8_sig (text : str) : str :=
  match text with
  | c :: text' => if N.eqb c BOM then text' else text
  | [] => []
  end.

(** Iteration over a text file in universal-newline mode: each line keeps
    its terminator, translated to a line feed. *)
Fixpoint readlines_from (cur : str) (text : str) : list str :=
  match text with
  | [] => if is_empty cur then [] else [rev cur]
  | 13%N :: 10%N :: text' => rev (10%N :: cur) :: readlines_from [] text'
  | 13%N :: text' => rev (10%N :: cur) :: readlines_from [] text'
  | 10%N :: text' => rev (10%N :: cur) :: readlines_from [] text'
  | c :: text' => readlines_from (c :: cur) text'
  end.

Definition readlines (text : str) : list str := readlines_from [] text.

(** [sys.version_info < (3, 6)] and the like, on major and minor. *)
Definition version_lt (a b : nat * nat) : bool :=
  ((fst a <? fst b) || (fst a =? fst b) && (snd a <? snd b))%nat.

(** The truth value of a list is whether it has an element. *)
Definition is_nil {A} (l : list A) : bool :=
  match l with [] => true | _ => false end.

(** [except Exception] does not catch [SystemExit]. *)
Definition is_Exception (e : exn) : bool :=
  match e with
  | SystemExit _ => false
  | _ => true
  end.

Section Checker.

(** [ipaddress.ip_network(_, strict=False)] on a string, [None] for
    [ValueError]; and the interpreter's [sys.version_info]. *)
Variable parse : str -> option network.
Variable version_info : nat * nat.
Variable w : world.

Definition ip_network (address : str) : result network :=
  match parse address with
  | Some n => Ok n
  | None => Raise ValueError
  end.

(** [hasattr(target, 'subnet_of')]: the method exists from Python 3.7. *)
Definition has_subnet_of : bool := negb (version_lt version_info (3, 7)%nat).

(** One turn of the loop of [read_cidrs_from_file] (lines 26-37): what it
    prints, and the list after it.  Nothing in it raises but [ip_network],
    whose [ValueError] is caught at line 36. *)
Definition read_line (cidrs : list str) (line : str)
  : list event * list str :=
  let line := strip line in
  if negb (is_empty line) && negb (startswith comma line) then
    let parts := if contains arrow line then split arrow line else [line] in
    let cidr_part := strip (last parts []) in
    if negb (is_empty cidr_part) then
      match ip_network cidr_part with
      | Ok _ => ([], cidrs ++ [cidr_part])
      | Raise _ => ([Stdout (InvalidCidrSkipped cidr_part)], cidrs)
      end
    else ([], cidrs)
  else ([], cidrs).

Fixpoint read_lines (cidrs : list str) (lines : list str)
  : list event * list str :=
  match lines with
  | [] => ([], cidrs)
  | line :: lines' =>
      let (out, cidrs') := read_line cidrs line in
      let (out', cidrs'') := read_lines cidrs' lines' in
      (out ++ out', cidrs'')
  end.

(** The two [except] clauses of [read_cidrs_from_file] (lines 38-41); the
    list built so far is returned after either. *)
Definition read_failed (filename : str) (e : exn) (cidrs : list str)
  : io event (list str) :=
  match e with
  | FileNotFoundError => emit (Stdout (FileNotFound filename)) ;;; ret cidrs
  | _ =>
      if is_Exception e
      then emit (Stdout (ErrorReading filename e)) ;;; ret cidrs
      else raise e
  end.

Definition read_cidrs_from_file (filename : str) : io event (list str) :=
  match files w filename with
  | OpenFails e => read_failed filename e []
  | Readable text failure =>
      let (out, cidrs) := read_lines [] (readlines (utf_8_sig text)) in
      match failure with
      | None => (out, Ok cidrs)
      | Some e =>
          let (out', r) := read_failed filename e cidrs in (out ++ out', r)
      end
  end.

Definition get_ip_range (cidr : str) : ip_range :=
  match ip_network cidr with
  | Ok network => Range (network_address network) (broadcast_address network)
  | Raise _ => InvalidCIDR
  end.

(** Lines 53-70. *)
Definition is_subnet_of (subnet supernet : str) : result bool :=
  except_ValueError
    (subnet_net <- ip_network subnet ;;
     supernet_net <- ip_network supernet ;;
     c <- address_ge (network_address subnet_net)
                     (network_address supernet_net) ;;
     if c
     then address_le (broadcast_address subnet_net)
                     (broadcast_address supernet_net)
     else Ok false)
    (Ok false).

(** The body of the [try] of [is_network_covered] (lines 78-87): whether
    this covering network covers the target. *)
Definition covers (target_network : str) (target : network)
           (covering_network : str) : result bool :=
  covering <- ip_network covering_network ;;
  if has_subnet_of
  then
    b <- subnet_of target covering ;;
    Ok (b || network_eq target covering)
  else
    b <- is_subnet_of target_network covering_network ;;
    Ok (b || network_eq target covering).

(** The loop of [is_network_covered] (lines 76-91). *)
Fixpoint covered_by (target_network : str) (target : network)
         (covering_networks : list str) : result (bool * option str) :=
  match covering_networks with
  | [] => Ok (false, None)
  | covering_network :: rest =>
      match covers target_network target covering_network with
      | Ok true => Ok (true, Some covering_network)
      | Ok false => covered_by target_network target rest
      | Raise ValueError => covered_by target_network target rest
      | Raise e => Raise e
      end
  end.

Definition is_network_covered (target_network : str)
           (covering_networks : list str) : result (bool * option str) :=
  target <- ip_network target_network ;;
  covered_by target_network target covering_networks.

(** The partition loop of [main] (lines 195-203), on the two lists it
    builds. *)
Fixpoint partition_routes (ms_routes er_routes : list str)
         (covered_routes : list (str * option str))
         (uncovered_routes : list str)
  : result (list (str * option str) * list str) :=
  match er_routes with
  | [] => Ok (covered_routes, uncovered_routes)
  | er_route :: rest =>
      r <- is_network_covered er_route ms_routes ;;
      let (is_covered, covering_route) := r in
      if is_covered
      then partition_routes ms_routes rest
             (covered_routes ++ [(er_route, covering_route)]) uncovered_routes
      else partition_routes ms_routes rest
             covered_routes (uncovered_routes ++ [er_route])
  end.

Definition with_range (route : str) : str * ip_range :=
  (route, get_ip_range route).

(** The rows of the covered table (lines 124-127).  A covering route that
    is [None] cannot be formatted with [:<20]. *)
Fixpoint write_covered_rows (log_filename : str)
         (covered_routes : list (str * option str)) : io event unit :=
  match covered_routes with
  | [] => ret tt
  | (er_route, Some ms_route) :: rest =>
      emit (LogWrite log_filename
              (LogCoveredRow er_route (get_ip_range er_route)
                             ms_route (get_ip_range ms_route))) ;;;
      write_covered_rows log_filename rest
  | (_, None) :: _ => raise TypeError
  end.

(** Lines 93-166.  Opening and writing the log file are taken to succeed. *)
Definition write_log_file (ms_routes er_routes : list str)
           (covered_routes : list (str * option str))
           (uncovered_routes : list str) (ms_file er_file : str)
  : io event str :=
  let log_filename :=
    lit "cidr_coverage_analysis_" ++ now_compact w ++ lit ".log" in
  let write item := emit (LogWrite log_filename item) in
  write (LogHeader (now_long w) ms_file (length ms_routes)
                   er_file (length er_routes)) ;;;
  write (LogTotals (length er_routes) (length covered_routes)
                   (length uncovered_routes)) ;;;
  ' ratio <~ lift (true_div (Z.of_nat (length covered_routes))
                            (Z.of_nat (length er_routes))) ;;
  write (LogCoveragePercentage
           (format_1f (PrimFloat.mul ratio (float_of_int 100)))) ;;;
  (if negb (is_nil covered_routes)
   then write LogCoveredHeading ;;;
        write_covered_rows log_filename covered_routes ;;;
        write (LogCoveredTotal (length covered_routes))
   else ret tt) ;;;
  (if negb (is_nil uncovered_routes)
   then write (LogUncoveredTable (List.map with_range uncovered_routes)
                                 (length uncovered_routes))
   else write LogUncoveredNone) ;;;
  write (LogInputContents ms_file (List.map with_range ms_routes)
                          er_file (List.map with_range er_routes)) ;;;
  write LogEnd ;;;
  ret log_filename.

Definition ms_file : str := lit "MS_routes.csv".
Definition er_file : str := lit "ER_public_routes.csv".

(** The first five covered pairs, as the console shows them (lines
    225-228). *)
Fixpoint print_covered (pairs : list (str * option str)) : io event unit :=
  match pairs with
  | [] => ret tt
  | (er_route, ms_route) :: rest =>
      emit (Stdout (CoveredPair er_route (get_ip_range er_route) ms_route
                     (match ms_route with
                      | Some r => get_ip_range r
                      | None => InvalidCIDR
                      end))) ;;;
      print_covered rest
  end.

Fixpoint print_each (ls : list line) : io event unit :=
  match ls with
  | [] => ret tt
  | l :: rest => emit (Stdout l) ;;; print_each rest
  end.

(** Lines 168-233.  [os.path.getsize] of the log just written is taken to
    succeed. *)
Definition main : io event unit :=
  (if version_lt version_info (3, 6)%nat
   then print_each [RequiresPython36; CurrentPythonVersion] ;;; sys_exit 1
   else ret tt) ;;;
  print_each [PythonVersion;
              if has_subnet_of then UsingBuiltinSubnetOf
              else UsingCompatibility;
              Separator] ;;;
  ' ms_routes <~ read_cidrs_from_file ms_file ;;
  ' er_routes <~ read_cidrs_from_file er_file ;;
  print_each [MsRoutesLoaded (length ms_routes);
              ErRoutesLoaded (length er_routes);
              Separator] ;;;
  ' p <~ lift (partition_routes ms_routes er_routes [] []) ;;
  let (covered_routes, uncovered_routes) := p in
  ' log_filename <~ write_log_file ms_routes er_routes covered_routes
                                   uncovered_routes ms_file er_file ;;
  print_each [SummaryHeading;
              TotalErRoutes (length er_routes);
              CoveredByMs (length covered_routes);
              NotCoveredByMs (length uncovered_routes);
              Separator] ;;;
  (if negb (is_nil uncovered_routes)
   then print_each
          (UncoveredHeading
           :: List.map (fun route => UncoveredRoute route (get_ip_range route))
                       uncovered_routes)
   else print_each [AllCovered]) ;;;
  (if negb (is_nil covered_routes)
   then emit (Stdout CoveredHeading) ;;;
        print_covered (firstn 5 covered_routes) ;;;
        (if (5 <? length covered_routes)%nat
         then emit (Stdout (AndMore (length covered_routes - 5)))
         else ret tt)
   else ret tt) ;;;
  print_each [LogWrittenTo log_filename; LogFileSize log_filename].

End Checker.

End CidrCoverage.

(** ** elastic_flow.py *)

Module ElasticFlow.

(** A JSON document: the payload that [build_payload] returns, and the
    body of a response.  A Python [dict] keeps its keys in insertion
    order. *)
#[warnings="-register-all"]
Inductive json :=
| JNull
| JBool (b : bool)
| JInt (n : Z)
| JStr (s : str)
| JList (items : list json)
| JDict (items : list (str * json)).

(** The module-level field names, read from the environment at start-up
    (lines 18-19). *)
Record config := { SRC_FIELD : str; DST_FIELD : str }.

(** [args] after [parser.parse_args()]; a credential that is neither
    given nor in the environment is [None]. *)
Record args := {
  es_url : str;
  index : str;
  username : option str;
  password : option str;
  input : str;
  output : str;
  days : Z;
  size : Z;
  timeout : Z;
  insecure : bool;
  allow_wildcard : bool;
  dry_run : bool;
  confirm_flag : bool
}.

(** The arguments of [requests.post]; [data] is the document that
    [json.dumps] serialises. *)
Record request := {
  url : str;
  auth : str * str;
  headers : list (str * str);
  data : json;
  verify : bool;
  request_timeout : Z
}.

(** A response: whether [raise_for_status] passes, and what [resp.json()]
    returns. *)
Record response := {
  status_ok : bool;
  body : result json
}.

(** The outside of the script: the terminal, the file system and the
    server. *)
Record world := {
  getpass : str -> result str;
  stdin_input : str -> result str;
  path_exists : str -> bool;
  read_csv : str -> result (list (list str));
  requests_post : request -> result response;
  write_csv : str -> list (list json) -> result unit
}.

Inductive message :=
| IndexContainsWildcard
| MissingCredentials
| InputCsvNotFound (path : str)
| LoadedSubnets (n : nat) (path : str)
| DryRunComplete
| AbortedByUser
| QueryingElasticsearch (url : str)
| RequestFailed (e : exn)
| JsonDecodeFailed
| WriteOutputFailed (e : exn)
| Success (n : nat) (path : str).

Inductive printed :=
| DryRunEsUrl (es_url : str)
| DryRunIndex (index : str)
| JsonDumps (payload : json) (indent : Z).

Inductive event :=
| LoggingError (m : message)
| LoggingInfo (m : message)
| GetpassPrompt (prompt : str)
| InputPrompt (prompt : str)
| CsvOpened (path : str)
| Stdout (p : printed)
| WarningsDisabled
| HttpPost (r : request)
| CsvWritten (path : str) (rows : list (list json)).

Definition star : N := 42.
Definition dquote : N := 34.

(** [s.lower()].  Only the ASCII letters are lowered here: no other
    character lowers to a letter of ['y'] or ['yes'], the only strings the
    result is compared with. *)
Definition lower (s : str) : str :=
  List.map (fun c => if ((65 <=? c) && (c <=? 90))%N then (c + 32)%N else c) s.

(** [s.rstrip('/')] *)
Fixpoint lstrip_char (c : N) (s : str) : str :=
  match s with
  | [] => []
  | d :: s' => if N.eqb d c then lstrip_char c s' else s
  end.

Definition rstrip_char (c : N) (s : str) : str := rev (lstrip_char c (rev s)).

(** The truth value of an optional string: [None] and [''] are false. *)
Definition truthy (s : option str) : bool :=
  match s with
  | Some (_ :: _) => true
  | _ => false
  end.

Section Script.

Variable cfg : config.
Variable w : world.

(** Lines 24-31: the first field of every non-empty row, stripped. *)
Definition load_subnets (path : str) : io event (list str) :=
  emit (CsvOpened path) ;;;
  ' rows <~ lift (read_csv w path) ;;
  ret (flat_map (fun row => match row with
                            | [] => []
                            | field :: _ => [strip field]
                            end) rows).

(** Lines 34-48. *)
Definition build_payload (subnets : list str) (days agg_size : Z) : json :=
  let subnet_query_string :=
    join (lit " OR ")
         (List.map (fun subnet => [dquote] ++ subnet ++ [dquote]) subnets) in
  JDict
    [(lit "size", JInt 0);
     (lit "query",
      JDict
        [(lit "bool",
          JDict
            [(lit "filter",
              JList
                [JDict
                   [(lit "range",
                     JDict
                       [(lit "@timestamp",
                         JDict
                           [(lit "gte",
                             JStr (lit "now-" ++ str_of_int days
                                   ++ lit "d/d"));
                            (lit "lte", JStr (lit "now/d"))])])];
                 JDict
                   [(lit "query_string",
                     JDict
                       [(lit "default_field", JStr (SRC_FIELD cfg));
                        (lit "query", JStr subnet_query_string)])]])])]);
     (lit "aggs",
      JDict
        [(lit "unique_destinations",
          JDict
            [(lit "terms",
              JDict
                [(lit "field", JStr (DST_FIELD cfg));
                 (lit "size", JInt agg_size)])])])].

(** Lines 51-56. *)
Definition confirm (prompt : str) : io event bool :=
  emit (InputPrompt (prompt ++ lit " [y/N]: ")) ;;;
  match stdin_input w (prompt ++ lit " [y/N]: ") with
  | Raise EOFError => ret false
  | Raise e => raise e
  | Ok line =>
      let resp := lower (strip line) in
      ret (str_eqb resp (lit "y") || str_eqb resp (lit "yes"))
  end.

(** [d.get(key, default)]; anything but a [dict] has no [get]. *)
Definition dict_get (d : json) (key : str) (default : json) : result json :=
  match d with
  | JDict items =>
      match find (fun kv => str_eqb (fst kv) key) items with
      | Some (_, v) => Ok v
      | None => Ok default
      end
  | _ => Raise AttributeError
  end.

(** What a [for] loop over a JSON value iterates on. *)
Definition iterate (v : json) : result (list json) :=
  match v with
  | JList items => Ok items
  | JDict items => Ok (List.map (fun kv => JStr (fst kv)) items)
  | JStr s => Ok (List.map (fun c => JStr [c]) s)
  | _ => Raise TypeError
  end.

(** The rows of the loop at lines 142-143 that are written before the
    loop ends, and the exception that ends it early, if any. *)
Fixpoint bucket_rows (buckets : list json) : list (list json) * option exn :=
  match buckets with
  | [] => ([], None)
  | bucket :: rest =>
      match dict_get bucket (lit "key") JNull,
            dict_get bucket (lit "doc_count") JNull with
      | Ok k, Ok n => let (rows, e) := bucket_rows rest in ([k; n] :: rows, e)
      | Raise e, _ => ([], Some e)
      | _, Raise e => ([], Some e)
      end
  end.

(** Lines 138-148: the output file and the closing message. *)
Definition export (a : args) (buckets : json) : io event unit :=
  let header := [JStr (lit "Destination IP"); JStr (lit "Flow Count")] in
  match iterate buckets with
  | Raise e =>
      emit (CsvWritten (output a) [header]) ;;;
      match write_csv w (output a) [header] with
      | Raise OSError =>
          emit (LoggingError (WriteOutputFailed OSError)) ;;; sys_exit 1
      | _ => raise e
      end
  | Ok items =>
      let (rows, stopped) := bucket_rows items in
      emit (CsvWritten (output a) (header :: rows)) ;;;
      match write_csv w (output a) (header :: rows) with
      | Raise OSError =>
          emit (LoggingError (WriteOutputFailed OSError)) ;;; sys_exit 1
      | Raise e => raise e
      | Ok _ =>
          match stopped with
          | Some e => raise e
          | None =>
              emit (LoggingInfo (Success (length items) (output a)))
          end
      end
  end.

(** Lines 112-148: the request and what follows it. *)
Definition query (a : args) (username password : str) (payload : json)
  : io event unit :=
  let verify := negb (insecure a) in
  (if negb verify then emit WarningsDisabled else ret tt) ;;;
  let headers := [(lit "Content-Type", lit "application/json")] in
  let url := rstrip_char 47 (es_url a) ++ lit "/" ++ index a
             ++ lit "/_search" in
  emit (LoggingInfo (QueryingElasticsearch url)) ;;;
  let req := {| url := url; auth := (username, password);
                headers := headers; data := payload; verify := verify;
                request_timeout := timeout a |} in
  emit (HttpPost req) ;;;
  match requests_post w req with
  | Raise RequestException =>
      emit (LoggingError (RequestFailed RequestException)) ;;; sys_exit 1
  | Raise e => raise e
  | Ok resp =>
      if negb (status_ok resp)
      then emit (LoggingError (RequestFailed RequestException)) ;;; sys_exit 1
      else
        match body resp with
        | Raise ValueError => emit (LoggingError JsonDecodeFailed) ;;; sys_exit 1
        | Raise e => raise e
        | Ok data =>
            ' buckets <~ lift
               (aggregations <- dict_get data (lit "aggregations") (JDict []) ;;
                unique <- dict_get aggregations (lit "unique_destinations")
                                   (JDict []) ;;
                dict_get unique (lit "buckets") (JList [])) ;;
            export a buckets
        end
  end.

(** The question of line 108. *)
Definition wildcard_prompt (a : args) : str :=
  lit "Index '" ++ index a ++ lit "' contains a wildcard. Proceed with query?".

(** Lines 76-148, after the arguments are parsed. *)
Definition main (a : args) : io event unit :=
  (if contains star (index a) && negb (allow_wildcard a)
   then emit (LoggingError IndexContainsWildcard) ;;; sys_exit 2
   else ret tt) ;;;
  ' password <~
    (if truthy (username a) && negb (truthy (password a))
     then emit (GetpassPrompt (lit "Elasticsearch password: ")) ;;;
          ' p <~ lift (getpass w (lit "Elasticsearch password: ")) ;;
          ret (Some p)
     else ret (password a)) ;;
  (if negb (truthy (username a)) || negb (truthy password)
   then emit (LoggingError MissingCredentials) ;;; sys_exit 2
   else ret tt) ;;;
  (if negb (path_exists w (input a))
   then emit (LoggingError (InputCsvNotFound (input a))) ;;; sys_exit 2
   else ret tt) ;;;
  ' subnets <~ load_subnets (input a) ;;
  emit (LoggingInfo (LoadedSubnets (length subnets) (input a))) ;;;
  let payload := build_payload subnets (days a) (size a) in
  if dry_run a
  then
    emit (Stdout (DryRunEsUrl (es_url a))) ;;;
    emit (Stdout (DryRunIndex (index a))) ;;;
    emit (Stdout (JsonDumps payload 2)) ;;;
    emit (LoggingInfo DryRunComplete)
  else
    (if contains star (index a) && negb (confirm_flag a)
     then
       ' yes <~ confirm (wildcard_prompt a) ;;
       if negb yes
       then emit (LoggingInfo AbortedByUser) ;;; sys_exit 0
       else ret tt
     else ret tt) ;;;
    query a (match username a with Some u => u | None => [] end)
            (match password with Some p => p | None => [] end)
            payload.

End Script.

End ElasticFlow.

(** ** The specification's vocabulary for the coverage checker *)

Module CidrCoverageSpec.
Import CidrCoverage.

Section Spec.

Variable parse : str -> option network.

(** A string is a valid prefix when the library parses it. *)
Definition valid (cidr : str) : bool :=
  match parse cidr with
  | Some _ => true
  | None => false
  end.

(** The text after the last [sep] of [s]; all of [s] when it has none. *)
Fixpoint after_last (sep : N) (s : str) : str :=
  match s with
  | [] => []
  | c :: s' =>
      if contains sep s' then after_last sep s'
      else if N.eqb c sep then s'
      else s
  end.

(** A line that is neither blank nor header-like. *)
Definition is_data_line (line : str) : bool :=
  negb (is_empty (strip line)) && negb (startswith comma (strip line)).

(** The candidate prefix of a line: the text after its last arrow. *)
Definition candidate (line : str) : str :=
  strip (after_last arrow (strip line)).

Definition candidates_of (lines : list str) : list str :=
  filter (fun c => negb (is_empty c))
         (List.map candidate (filter is_data_line lines)).

Definition candidates (text : str) : list str :=
  candidates_of (readlines (utf_8_sig text)).

(** What the loader must return, and what it must report. *)
Definition valid_prefixes (text : str) : list str :=
  filter valid (candidates text).



(** The range comparison that [is_subnet_of] and [subnet_of] both make:
    same version, first address not below, last address not above. *)
Definition within (a b : network) : Prop :=
  version a = version b
  /\ a_ip (network_address b) <= a_ip (network_address a)
  /\ a_ip (broadcast_address a) <= a_ip (broadcast_address b).

(** Whether the string [covering_network] is a valid prefix whose first
    address is at most the target's and whose last address is at least the
    target's. *)
Definition covering (target : network) (covering_network : str) : bool :=
  match parse covering_network with
  | Some n =>
      (a_ip (network_address n) <=? a_ip (network_address target))
      && (a_ip (broadcast_address target) <=? a_ip (broadcast_address n))
  | None => false
  end.

(** The answer of the containment test: the first covering prefix in
    input order, if there is one. *)
Definition first_covering (target : network) (covering_networks : list str)
  : bool * option str :=
  match find (covering target) covering_networks with
  | Some c => (true, Some c)
  | None => (false, None)
  end.

(** Every valid prefix of the list has the target's address family. *)
Definition same_family (target : network) (covering_networks : list str)
  : Prop :=
  forall c n, In c covering_networks -> parse c = Some n ->
              version n = version target.

End Spec.

End CidrCoverageSpec.

(** ** The specification's vocabulary for the Elastiflow tool *)

Module ElasticFlowSpec.
Import ElasticFlow.

(** The requests issued during a run, the payloads it printed, the files
    it opened, and whether it asked the wildcard question. *)
Definition posted (trace : list event) : list request :=
  flat_map (fun e => match e with HttpPost r => [r] | _ => [] end) trace.

Definition printed (trace : list event) : list printed :=
  flat_map (fun e => match e with Stdout p => [p] | _ => [] end) trace.

Definition printed_payloads (trace : list event) : list json :=
  flat_map (fun e => match e with
                     | Stdout (JsonDumps payload _) => [payload]
                     | _ => []
                     end) trace.

Definition opened (trace : list event) : list str :=
  flat_map (fun e => match e with CsvOpened path => [path] | _ => [] end)
           trace.

Definition asked (trace : list event) : bool :=
  existsb (fun e => match e with InputPrompt _ => true | _ => false end) trace.

(** The same arguments with [--dry-run] set or not. *)
Definition with_dry_run (b : bool) (a : args) : args :=
  {| es_url := es_url a; index := index a; username := username a;
     password := password a; input := input a; output := output a;
     days := days a; size := size a; timeout := timeout a;
     insecure := insecure a; allow_wildcard := allow_wildcard a;
     dry_run := b; confirm_flag := confirm_flag a |}.

(** The subnets, each in double quotes, joined by [OR] in input order. *)
Fixpoint quoted_disjunction (subnets : list str) : str :=
  match subnets with
  | [] => []
  | [subnet] => dquote :: subnet ++ [dquote]
  | subnet :: rest =>
      dquote :: subnet ++ [dquote] ++ lit " OR " ++ quoted_disjunction rest
  end.

(** [d[key]] on a document. *)
Definition item (key : str) (d : json) : option json :=
  match d with
  | JDict items =>
      match find (fun kv => str_eqb (fst kv) key) items with
      | Some (_, v) => Some v
      | None => None
      end
  | _ => None
  end.

Definition element (i : nat) (d : json) : option json :=
  match d with
  | JList items => nth_error items i
  | _ => None
  end.

Fixpoint path (keys : list (str + nat)) (d : json) : option json :=
  match keys with
  | [] => Some d
  | inl key :: keys' =>
      match item key d with
      | Some v => path keys' v
      | None => None
      end
  | inr i :: keys' =>
      match element i d with
      | Some v => path keys' v
      | None => None
      end
  end.

(** The two filters of the payload: the bounds of the time range, and the
    text of the query on the source field. *)
Definition time_range (payload : json) : option json :=
  path [inl (lit "query"); inl (lit "bool"); inl (lit "filter"); inr 0%nat;
        inl (lit "range"); inl (lit "@timestamp")] payload.

Definition query_text (payload : json) : option json :=
  path [inl (lit "query"); inl (lit "bool"); inl (lit "filter"); inr 1%nat;
        inl (lit "query_string"); inl (lit "query")] payload.

(** The one request of a run that reaches line 123. *)
Definition the_request (a : args) (username password : str) (payload : json)
  : request :=
  {| url := rstrip_char 47 (es_url a) ++ lit "/" ++ index a
            ++ lit "/_search";
     auth := (username, password);
     headers := [(lit "Content-Type", lit "application/json")];
     data := payload;
     verify := negb (insecure a);
     request_timeout := timeout a |}.

End ElasticFlowSpec.

(** ** Concrete inputs *)

Module Examples.
Import CidrCoverage.

Definition nl : str := [10%N].

Definition missing : file_state := OpenFails FileNotFoundError.

(** A run of the checker on the two input files in the given states. *)
Definition cidr_world (ms er : file_state) : world :=
  {| files := fun filename =>
                if str_eqb filename ms_file then ms
                else if str_eqb filename er_file then er
                else missing;
     now_compact := lit "20260101_120000";
     now_long := lit "2026-01-01 12:00:00" |}.

(** The three lines of the specification's loader example. *)
Definition three_lines : str :=
  lit "10.0.0.0/8" ++ nl ++ lit "not-a-cidr" ++ nl
  ++ lit "192.168.1.0/24" ++ nl.

Definition ms_one_route : file_state := Readable (lit "10.0.0.0/8" ++ nl) None.

(** [10.0.0.0/8] and [::1/128] as network objects. *)
Definition net_10_8 : network := make_network IPv4 167772160 8.
Definition net_loopback6 : network := make_network IPv6 1 128.

(** A run of the Elastiflow tool: credentials given, the input file with
    the two subnets of the specification's example, a server that answers
    with one bucket, and [answer] typed at the wildcard question. *)
Definition flow_config : ElasticFlow.config :=
  {| ElasticFlow.SRC_FIELD := lit "source.ip";
     ElasticFlow.DST_FIELD := lit "destination.ip" |}.

Definition two_subnets : list str := [lit "10.0.0.0/24"; lit "10.0.1.0/24"].

Definition one_bucket : ElasticFlow.json :=
  ElasticFlow.JDict
    [(lit "aggregations",
      ElasticFlow.JDict
        [(lit "unique_destinations",
          ElasticFlow.JDict
            [(lit "buckets",
              ElasticFlow.JList
                [ElasticFlow.JDict
                   [(lit "key", ElasticFlow.JStr (lit "192.0.2.1"));
                    (lit "doc_count", ElasticFlow.JInt 42)]])])])].

Definition flow_world (answer : result str) : ElasticFlow.world :=
  {| ElasticFlow.getpass := fun _ => Ok [];
     ElasticFlow.stdin_input := fun _ => answer;
     ElasticFlow.path_exists := fun _ => true;
     ElasticFlow.read_csv :=
       fun _ => Ok (List.map (fun subnet => [subnet]) two_subnets);
     ElasticFlow.requests_post :=
       fun _ => Ok {| ElasticFlow.status_ok := true;
                      ElasticFlow.body := Ok one_bucket |};
     ElasticFlow.write_csv := fun _ _ => Ok tt |}.

Definition flow_args (user : option str)
           (allow_wildcard dry_run : bool) : ElasticFlow.args :=
  {| ElasticFlow.es_url := lit "https://es.example:9200/";
     ElasticFlow.index := lit "logs-*";
     ElasticFlow.username := user;
     ElasticFlow.password := option_map (fun _ => lit "secret") user;
     ElasticFlow.input := lit "source_subnets.csv";
     ElasticFlow.output := lit "destination_ips.csv";
     ElasticFlow.days := 7;
     ElasticFlow.size := 10000;
     ElasticFlow.timeout := 30;
     ElasticFlow.insecure := false;
     ElasticFlow.allow_wildcard := allow_wildcard;
     ElasticFlow.dry_run := dry_run;
     ElasticFlow.confirm_flag := false |}.

Definition elastic : option str := Some (lit "elastic").

End Examples.

(** ** Further vocabulary *)

Module CidrCoverageMoreSpec.
Import CidrCoverage.

(** The exceptions of a file state are ordinary ones, which
    [except Exception] catches. *)
Definition ordinary (state : file_state) : bool :=
  match state with
  | OpenFails e => is_Exception e
  | Readable _ (Some e) => is_Exception e
  | Readable _ None => true
  end.

(** The same text with every line feed written as carriage return and
    line feed. *)
Fixpoint to_crlf (text : str) : str :=
  match text with
  | [] => []
  | c :: text' =>
      if N.eqb c 10 then 13%N :: 10%N :: to_crlf text' else c :: to_crlf text'
  end.

(** A string with no line terminator in it. *)
Definition one_line (s : str) : Prop := ~ In 10%N s /\ ~ In 13%N s.

(** A file with one prefix per line. *)
Definition one_per_line (cidrs : list str) : str :=
  flat_map (fun c => c ++ [10%N]) cidrs.

(** Whether the check reports [er_route] covered by [ms_routes]. *)
Definition reported_covered (parse : str -> option network)
           (version_info : nat * nat) (ms_routes : list str)
           (er_route : str) : bool :=
  match is_network_covered parse version_info er_route ms_routes with
  | Ok (true, _) => true
  | _ => false
  end.

(** The items written to the log, in order. *)
Definition log_items (trace : list event) : list log_item :=
  flat_map (fun e => match e with LogWrite _ item => [item] | _ => [] end)
           trace.

(** The lines printed, in order. *)
Definition printed_lines (trace : list event) : list line :=
  flat_map (fun e => match e with Stdout l => [l] | _ => [] end) trace.

(** A covered list in which every route has its covering prefix. *)
Definition with_covering (pairs : list (str * str))
  : list (str * option str) :=
  List.map (fun p => (fst p, Some (snd p))) pairs.

(** The name of the log file, around the time stamp. *)
Definition log_name (w : world) : str :=
  lit "cidr_coverage_analysis_" ++ now_compact w ++ lit ".log".

(** The text of the percentage of line 116. *)
Definition percentage_text (covered total : nat) : str :=
  format_1f (PrimFloat.mul
               (PrimFloat.div (float_of_int (Z.of_nat covered))
                              (float_of_int (Z.of_nat total)))
               (float_of_int 100)).

(** The items of a complete report, in order. *)
Definition report_items (parse : str -> option network) (w : world)
           (ms_routes er_routes : list str) (pairs : list (str * str))
           (uncovered_routes : list str) (ms_file er_file : str)
  : list log_item :=
  [LogHeader (now_long w) ms_file (length ms_routes)
             er_file (length er_routes);
   LogTotals (length er_routes) (length pairs) (length uncovered_routes);
   LogCoveragePercentage
     (percentage_text (length pairs) (length er_routes))]
  ++ (match pairs with
      | [] => []
      | _ =>
          LogCoveredHeading
          :: List.map (fun p => LogCoveredRow
                                  (fst p) (get_ip_range parse (fst p))
                                  (snd p) (get_ip_range parse (snd p)))
                      pairs
          ++ [LogCoveredTotal (length pairs)]
      end)
  ++ [match uncovered_routes with
      | [] => LogUncoveredNone
      | _ => LogUncoveredTable
               (List.map (with_range parse) uncovered_routes)
               (length uncovered_routes)
      end]
  ++ [LogInputContents ms_file (List.map (with_range parse) ms_routes)
                       er_file (List.map (with_range parse) er_routes);
      LogEnd].

(** The lines of the console summary (lines 209-233), in order: the
    counts, the uncovered routes or the note that all are covered, at most
    five covered pairs and the number of the others, and the log file. *)
Definition console_summary (parse : str -> option network) (w : world)
           (er_routes : list str) (pairs : list (str * str))
           (uncovered_routes : list str) : list line :=
  [SummaryHeading;
   TotalErRoutes (length er_routes);
   CoveredByMs (length pairs);
   NotCoveredByMs (length uncovered_routes);
   Separator]
  ++ (match uncovered_routes with
      | [] => [AllCovered]
      | _ => UncoveredHeading
             :: List.map (fun route => UncoveredRoute
                                         route (get_ip_range parse route))
                         uncovered_routes
      end)
  ++ (match pairs with
      | [] => []
      | _ => CoveredHeading
             :: List.map (fun p => CoveredPair
                                     (fst p) (get_ip_range parse (fst p))
                                     (Some (snd p))
                                     (get_ip_range parse (snd p)))
                         (firstn 5 pairs)
             ++ (if (5 <? length pairs)%nat
                 then [AndMore (length pairs - 5)] else [])
      end)
  ++ [LogWrittenTo (log_name w); LogFileSize (log_name w)].

End CidrCoverageMoreSpec.

Module ElasticFlowMoreSpec.
Import ElasticFlow.

(** The files written during a run, each with its rows. *)
Definition written (trace : list event) : list (str * list (list json)) :=
  flat_map (fun e => match e with
                     | CsvWritten path rows => [(path, rows)]
                     | _ => []
                     end) trace.

(** The number of password prompts of a run. *)
Definition password_prompts (trace : list event) : nat :=
  length (filter (fun e => match e with
                           | GetpassPrompt _ => true
                           | _ => false
                           end) trace).

(** The answers, once stripped, that [confirm] takes for a yes. *)
Definition yes_answers : list str :=
  [lit "y"; lit "Y";
   lit "yes"; lit "Yes"; lit "yEs"; lit "yeS";
   lit "YEs"; lit "YeS"; lit "yES"; lit "YES"].

(** A result that is not a [SystemExit]. *)
Definition no_exit {A} (r : result A) : Prop :=
  forall n, r <> Raise (SystemExit n).

(** An outside world that never raises [SystemExit] into the script. *)
Definition quiet (w : world) : Prop :=
  (forall p, no_exit (getpass w p))
  /\ (forall p, no_exit (stdin_input w p))
  /\ (forall p, no_exit (read_csv w p))
  /\ (forall r, no_exit (requests_post w r))
  /\ (forall r resp, requests_post w r = Ok resp -> no_exit (body resp))
  /\ (forall p rows, no_exit (write_csv w p rows)).

(** The events that follow the request: messages of the log and the
    output file. *)
Definition follows_request (e : event) : bool :=
  match e with
  | LoggingError _ | LoggingInfo _ | CsvWritten _ _ => true
  | _ => false
  end.

(** What [query] does before it hears from the server. *)
Definition request_events (a : args) (username password : str)
  (payload : json) : list event :=
  (if insecure a then [WarningsDisabled] else [])
  ++ [LoggingInfo (QueryingElasticsearch
                     (url (ElasticFlowSpec.the_request
                             a username password payload)));
      HttpPost (ElasticFlowSpec.the_request a username password payload)].

(** A body that is an object without the list of buckets: one of the
    three keys on the way to it is missing. *)
Definition lacks_buckets (data : json) : bool :=
  match data with
  | JDict _ =>
      match ElasticFlowSpec.item (lit "aggregations") data with
      | None => true
      | Some (JDict aggregations) =>
          match ElasticFlowSpec.item (lit "unique_destinations")
                                     (JDict aggregations) with
          | None => true
          | Some (JDict unique) =>
              match ElasticFlowSpec.item (lit "buckets") (JDict unique) with
              | None => true
              | Some _ => false
              end
          | Some _ => false
          end
      | Some _ => false
      end
  | _ => false
  end.

(** The first line of the output file. *)
Definition csv_header : list json :=
  [JStr (lit "Destination IP"); JStr (lit "Flow Count")].

(** The row of a bucket: its key and its count, [None] for a missing
    one. *)
Definition bucket_row (items : list (str * json)) : list json :=
  let get key := match find (fun kv => str_eqb (fst kv) key) items with
                 | Some (_, v) => v
                 | None => JNull
                 end in
  [get (lit "key"); get (lit "doc_count")].

End ElasticFlowMoreSpec.

(** ** More concrete inputs *)

Module MoreExamples.
Import Examples.

(** An input of the checker with two routes of the specification's
    example, and one with an IPv6 route. *)
Definition er_two_routes : CidrCoverage.file_state :=
  CidrCoverage.Readable
    (lit "10.1.2.0/24" ++ nl ++ lit "172.16.0.0/16" ++ nl) None.

Definition er_loopback6 : CidrCoverage.file_state :=
  CidrCoverage.Readable (lit "::1/128" ++ nl) None.

(** A run of the Elastiflow tool on the given rows of the input file and
    the given outcome of the request. *)
Definition flow_site (rows : list (list str))
           (reply : result ElasticFlow.response) : ElasticFlow.world :=
  {| ElasticFlow.getpass := fun _ => Ok (lit "secret");
     ElasticFlow.stdin_input := fun _ => Ok (lit "y");
     ElasticFlow.path_exists := fun _ => true;
     ElasticFlow.read_csv := fun _ => Ok rows;
     ElasticFlow.requests_post := fun _ => reply;
     ElasticFlow.write_csv := fun _ _ => Ok tt |}.

(** Rows with a padded first field, a second field and an empty row. *)
Definition rows_with_blank : list (list str) :=
  [[lit " 10.0.0.0/24 "; lit "office"]; []; [lit "10.0.1.0/24"]].

(** The fields of the bucket of [one_bucket]. *)
Definition bucket_fields : list (str * ElasticFlow.json) :=
  [(lit "key", ElasticFlow.JStr (lit "192.0.2.1"));
   (lit "doc_count", ElasticFlow.JInt 42)].

(** An answer of the server: its body. *)
Definition answer (data : ElasticFlow.json) : result ElasticFlow.response :=
  Ok {| ElasticFlow.status_ok := true; ElasticFlow.body := Ok data |}.

(** A body without aggregations. *)
Definition no_aggregations : ElasticFlow.json :=
  ElasticFlow.JDict [(lit "took", ElasticFlow.JInt 3)].

(** The request of [flow_args] with the credentials of the examples. *)
Definition flow_request : ElasticFlow.request :=
  ElasticFlowSpec.the_request
    (flow_args elastic true false) (lit "elastic") (lit "secret")
    (ElasticFlow.build_payload flow_config two_subnets 7 10000).

End MoreExamples.

(** ** Proof automation *)

(** The cases of a run of the Elastiflow tool up to the end of its
    credential check: the user name, the password, and the answer to the
    password prompt when there is one. *)
Ltac credentials w a :=
  destruct (ElasticFlow.username a) as [[|? ?]|];
  destruct (ElasticFlow.password a) as [[|? ?]|];
  cbn;
  try match goal with
      | |- context [ElasticFlow.getpass w ?p] =>
          destruct (ElasticFlow.getpass w p) as [[|? ?]|?]; cbn
      end.

(** The part of a trace [l] that comes before its tail [tl]. *)
Ltac prefix_of l tl :=
  match l with
  | tl => constr:(@nil ElasticFlow.event)
  | ?x :: ?l' => let r := prefix_of l' tl in constr:(x :: r)
  | ?l1 ++ ?l2 => let r := prefix_of l2 tl in constr:(l1 ++ r)
  end.

(** A run of the Elastiflow tool that stops before its request: with
    status 2, with status 0, at the end of a dry run, or on an exception
    of the terminal or of the input file. *)
Ltac stops_early :=
  left; split; [reflexivity |]; split; [reflexivity |];
  split; [reflexivity |];
  split; [intros; first [discriminate | repeat split; reflexivity] |];
  first
    [ left; repeat split; reflexivity
    | right; left; repeat split; reflexivity
    | right; right; left; repeat split; try reflexivity;
      eexists; split; reflexivity
    | right; right; right; eexists; split; [reflexivity |];
      first [ left; reflexivity
            | right; left; reflexivity
            | right; right; reflexivity ] ].

(** * Properties *)

(** ** The runtime and the address library *)

Module PyFacts.

Lemma str_eqb_eq (a b : str) : str_eqb a b = true <-> a = b.
Proof.
  unfold str_eqb; destruct (list_eq_dec N.eq_dec a b); split; congruence.
Qed.

Lemma str_eqb_refl (a : str) : str_eqb a a = true.
Proof. now apply str_eqb_eq. Qed.

Lemma ipversion_eqb_eq a b : ipversion_eqb a b = true <-> a = b.
Proof. destruct a, b; simpl; split; congruence. Qed.

Lemma ipversion_eqb_refl a : ipversion_eqb a a = true.
Proof. now destruct a. Qed.

(** The three comparisons, as relations on versions and integer values. *)
Lemma address_lt_Ok a b r :
  address_lt a b = Ok r <->
  a_version a = a_version b /\ r = (a_ip a <? a_ip b).
Proof.
  unfold address_lt.
  destruct (ipversion_eqb (a_version a) (a_version b)) eqn:V; simpl.
  - apply ipversion_eqb_eq in V.
    destruct (a_ip a =? a_ip b) eqn:E; simpl.
    + apply Z.eqb_eq in E. rewrite E, Z.ltb_irrefl.
      split; [intros [= <-]; auto | intros [_ ->]; auto].
    + split; [intros [= <-]; auto | intros [_ ->]; auto].
  - split; [discriminate |].
    intros [H _]. apply ipversion_eqb_eq in H. congruence.
Qed.

Lemma address_ge_true a b :
  address_ge a b = Ok true <->
  a_version a = a_version b /\ a_ip b <= a_ip a.
Proof.
  unfold address_ge, rbind.
  destruct (address_lt a b) as [r|e] eqn:L.
  - apply address_lt_Ok in L. destruct L as [V ->]. split.
    + intros [= H]. apply negb_true_iff, Z.ltb_ge in H. auto.
    + intros [_ H]. f_equal. apply negb_true_iff, Z.ltb_ge. exact H.
  - split; [discriminate |]. intros [V _].
    assert (address_lt a b = Ok (a_ip a <? a_ip b))
      by (apply address_lt_Ok; auto).
    congruence.
Qed.

Lemma address_le_true a b :
  address_le a b = Ok true <->
  a_version a = a_version b /\ a_ip a <= a_ip b.
Proof.
  unfold address_le, rbind, address_eq.
  destruct (address_lt a b) as [r|e] eqn:L.
  - apply address_lt_Ok in L. destruct L as [V ->].
    rewrite V, ipversion_eqb_refl, andb_true_r. split.
    + intros [= H]. apply orb_true_iff in H.
      split; [reflexivity | destruct H as [H|H]; lia].
    + intros [_ H]. f_equal. apply orb_true_iff. lia.
  - split; [discriminate |]. intros [V _].
    assert (address_lt a b = Ok (a_ip a <? a_ip b))
      by (apply address_lt_Ok; auto).
    congruence.
Qed.

End PyFacts.

(** ** The coverage checker *)

Module CidrCoverageFacts.
Import PyFacts CidrCoverage CidrCoverageSpec.

Section Containment.

Variable parse : str -> option network.

Lemma is_subnet_of_true subnet supernet :
  is_subnet_of parse subnet supernet = Ok true <->
  exists a b, parse subnet = Some a /\ parse supernet = Some b /\ within a b.
Proof.
  unfold is_subnet_of, ip_network, within.
  destruct (parse subnet) as [a|]; simpl;
    [| split; [discriminate | intros (? & ? & [=] & _)]].
  destruct (parse supernet) as [b|]; simpl;
    [| split; [discriminate | intros (? & ? & _ & [=] & _)]].
  destruct (address_ge (network_address a) (network_address b))
    as [[|]|e] eqn:G; simpl.
  - apply address_ge_true in G. destruct G as [V G].
    destruct (address_le (broadcast_address a) (broadcast_address b))
      as [r|e] eqn:L; simpl.
    + split.
      * intros [= ->]. apply address_le_true in L. destruct L as [_ L].
        exists a, b; auto.
      * intros (a' & b' & [= <-] & [= <-] & _ & _ & L').
        assert (address_le (broadcast_address a) (broadcast_address b)
                = Ok true) by (apply address_le_true; auto).
        congruence.
    + split.
      * destruct e; discriminate.
      * intros (a' & b' & [= <-] & [= <-] & _ & _ & L').
        assert (address_le (broadcast_address a) (broadcast_address b)
                = Ok true) by (apply address_le_true; auto).
        congruence.
  - split; [discriminate |].
    intros (a' & b' & [= <-] & [= <-] & V & G' & _).
    assert (address_ge (network_address a) (network_address b) = Ok true)
      by (apply address_ge_true; auto).
    congruence.
  - split.
    + destruct e; discriminate.
    + intros (a' & b' & [= <-] & [= <-] & V & G' & _).
      assert (address_ge (network_address a) (network_address b) = Ok true)
        by (apply address_ge_true; auto).
      congruence.
Qed.

Lemma within_refl a : within a a.
Proof. unfold within; repeat split; lia. Qed.

Lemma within_trans a b c : within a b -> within b c -> within a c.
Proof.
  unfold within. intros (V1 & N1 & B1) (V2 & N2 & B2).
  repeat split; [congruence | lia | lia].
Qed.

(** C6: the comparison of [is_subnet_of] is reflexive on the strings that
    parse, and transitive. *)
Theorem is_subnet_of_reflexive_transitive :
  (forall A n, parse A = Some n -> is_subnet_of parse A A = Ok true)
  /\ (forall A B C,
        is_subnet_of parse A B = Ok true ->
        is_subnet_of parse B C = Ok true ->
        is_subnet_of parse A C = Ok true).
Proof.
  split.
  - intros A n H. apply is_subnet_of_true.
    exists n, n. auto using within_refl.
  - intros A B C HAB HBC.
    apply is_subnet_of_true in HAB. destruct HAB as (a & b & Pa & Pb & Wab).
    apply is_subnet_of_true in HBC. destruct HBC as (b' & c & Pb' & Pc & Wbc).
    assert (b' = b) by congruence. subst b'.
    apply is_subnet_of_true. exists a, c. eauto using within_trans.
Qed.

Lemma address_lt_same a b :
  a_version a = a_version b -> address_lt a b = Ok (a_ip a <? a_ip b).
Proof. intros V. apply address_lt_Ok. auto. Qed.

Lemma address_le_same a b :
  a_version a = a_version b -> address_le a b = Ok (a_ip a <=? a_ip b).
Proof.
  intros V. unfold address_le, address_eq.
  rewrite (address_lt_same _ _ V), V, ipversion_eqb_refl, andb_true_r.
  simpl. f_equal.
  destruct (a_ip a <? a_ip b) eqn:L, (a_ip a =? a_ip b) eqn:E,
           (a_ip a <=? a_ip b) eqn:LE; simpl; try reflexivity; lia.
Qed.

Lemma address_ge_same a b :
  a_version a = a_version b -> address_ge a b = Ok (a_ip b <=? a_ip a).
Proof.
  intros V. unfold address_ge. rewrite (address_lt_same _ _ V). simpl.
  f_equal. destruct (a_ip a <? a_ip b) eqn:L, (a_ip b <=? a_ip a) eqn:LE;
    simpl; try reflexivity; lia.
Qed.

(** Equal networks have the same range. *)
Lemma network_eq_range a b :
  network_eq a b = true ->
  a_ip (network_address a) = a_ip (network_address b)
  /\ a_ip (broadcast_address a) = a_ip (broadcast_address b).
Proof.
  unfold network_eq, address_eq. intros H.
  apply andb_true_iff in H. destruct H as [H M].
  apply andb_true_iff in H. destruct H as [V H].
  apply andb_true_iff in H. destruct H as [A _].
  apply ipversion_eqb_eq in V. apply Z.eqb_eq in A, M.
  split; [assumption |].
  unfold broadcast_address, hostmask. simpl.
  unfold netmask in M. simpl in M. rewrite A, M, V. reflexivity.
Qed.

Section Covered.

Variable version_info : nat * nat.

(** On a covering prefix of the target's family, the body of the loop
    computes the two comparisons, whichever branch the interpreter takes. *)
Lemma covers_same_family target_network target covering_network n :
  parse target_network = Some target ->
  parse covering_network = Some n ->
  version n = version target ->
  covers parse version_info target_network target covering_network
  = Ok (covering parse target covering_network).
Proof.
  intros Pt Pc V. unfold covers, covering, ip_network. rewrite Pc.
  cbn [rbind].
  assert (Vn : a_version (network_address n)
               = a_version (network_address target)) by exact V.
  assert (Vb : a_version (broadcast_address n)
               = a_version (broadcast_address target)) by exact V.
  set (L := a_ip (network_address n) <=? a_ip (network_address target)).
  set (B := a_ip (broadcast_address target) <=? a_ip (broadcast_address n)).
  assert (E : network_eq target n = true -> L && B = true).
  { intros H. apply network_eq_range in H. destruct H as [H1 H2].
    apply andb_true_iff. split; apply Z.leb_le; lia. }
  assert (R : forall b, b = L && B -> b || network_eq target n = L && B).
  { intros b ->. destruct (network_eq target n).
    - rewrite (E eq_refl). reflexivity.
    - apply orb_false_r. }
  destruct (has_subnet_of version_info).
  - unfold subnet_of. fold (version n) in V. rewrite <- V.
    rewrite ipversion_eqb_refl. cbn [negb].
    rewrite (address_le_same _ _ Vn). cbn [rbind]. fold L.
    destruct L; cbn [rbind].
    + rewrite (address_ge_same _ _ Vb). cbn [rbind]. fold B.
      f_equal. now apply R.
    + f_equal. now apply R.
  - unfold is_subnet_of, ip_network. rewrite Pt, Pc. cbn [rbind].
    rewrite (address_ge_same _ _ (eq_sym Vn)). cbn [rbind]. fold L.
    destruct L; cbn [rbind except_ValueError].
    + rewrite (address_le_same _ _ (eq_sym Vb)).
      cbn [rbind except_ValueError]. fold B. f_equal. now apply R.
    + f_equal. now apply R.
Qed.

Lemma covers_invalid target_network target covering_network :
  parse covering_network = None ->
  covers parse version_info target_network target covering_network
  = Raise ValueError.
Proof. intros H. unfold covers, ip_network. now rewrite H. Qed.

(** Where every valid prefix of the list has the target's family, the
    target is covered exactly when some valid prefix of the list starts at
    or below its first address and ends at or above its last one, and the
    first such prefix in input order is returned. *)
Lemma is_network_covered_same_family target_network target covering_networks :
  parse target_network = Some target ->
  same_family parse target covering_networks ->
  is_network_covered parse version_info target_network covering_networks
  = Ok (first_covering parse target covering_networks).
Proof.
  intros Pt. unfold is_network_covered, ip_network, first_covering.
  rewrite Pt. simpl.
  induction covering_networks as [|c rest IH]; intros SF; [reflexivity |].
  simpl.
  assert (SF' : same_family parse target rest)
    by (intros c' n' Hin; apply SF; now right).
  destruct (parse c) as [n|] eqn:Pc.
  - rewrite (covers_same_family _ _ _ n Pt Pc) by (apply (SF c); simpl; auto).
    destruct (covering parse target c); [reflexivity | auto].
  - rewrite covers_invalid by assumption.
    unfold covering at 1. rewrite Pc. auto.
Qed.

End Covered.

(** *** The loader *)

Lemma split_no_sep sep s : contains sep s = false -> split sep s = [s].
Proof.
  unfold contains. induction s as [|c s IH]; simpl; [reflexivity |].
  intros H. apply orb_false_iff in H. destruct H as [Hc Hs].
  rewrite N.eqb_sym, Hc, (IH Hs). reflexivity.
Qed.

Lemma after_last_no_sep sep s : contains sep s = false -> after_last sep s = s.
Proof.
  destruct s as [|c s]; simpl; [reflexivity |].
  unfold contains. simpl. intros H. apply orb_false_iff in H.
  destruct H as [Hc Hs]. unfold contains. rewrite Hs, N.eqb_sym, Hc.
  reflexivity.
Qed.

Lemma split_has_sep sep s :
  contains sep s = true -> exists p q r, split sep s = p :: q :: r.
Proof.
  unfold contains. induction s as [|c s IH]; simpl; [discriminate |].
  intros H. destruct (N.eqb c sep) eqn:E.
  - destruct s as [|d s]; simpl; [now exists [], [], [] |].
    destruct (N.eqb d sep); [now eauto |].
    destruct (split sep s); now eauto.
  - rewrite N.eqb_sym, E in H. simpl in H.
    destruct (IH H) as (p & q & r & ->). now eauto.
Qed.

(** The last part of [split] is the text after the last separator. *)
Lemma last_split sep s : last (split sep s) [] = after_last sep s.
Proof.
  induction s as [|c s IH]; [reflexivity |].
  cbn [split after_last].
  destruct (contains sep s) eqn:C.
  - destruct (split_has_sep _ _ C) as (p & q & r & E).
    rewrite <- IH, E. now destruct (N.eqb c sep).
  - rewrite (split_no_sep _ _ C). now destruct (N.eqb c sep).
Qed.

(** The [cidr_part] of line 30 is the specification's candidate. *)
Lemma cidr_part_candidate line :
  strip (last (if contains arrow (strip line)
               then split arrow (strip line) else [strip line]) [])
  = candidate line.
Proof.
  unfold candidate. destruct (contains arrow (strip line)) eqn:C.
  - now rewrite last_split.
  - now rewrite after_last_no_sep.
Qed.

Lemma candidates_of_cons line lines :
  candidates_of (line :: lines) = candidates_of [line] ++ candidates_of lines.
Proof.
  unfold candidates_of. cbn [filter].
  destruct (is_data_line line); cbn [List.map filter app]; [| reflexivity].
  now destruct (negb (is_empty (candidate line))).
Qed.

Lemma read_line_spec cidrs line :
  read_line parse cidrs line
  = (List.map (fun c => Stdout (InvalidCidrSkipped c))
              (filter (fun c => negb (valid parse c)) (candidates_of [line])),
     cidrs ++ filter (valid parse) (candidates_of [line])).
Proof.
  unfold read_line, candidates_of. rewrite cidr_part_candidate.
  fold (is_data_line line). cbn [filter].
  destruct (is_data_line line); cbn [List.map filter];
    [| now rewrite app_nil_r].
  destruct (is_empty (candidate line)); cbn [negb filter List.map];
    [now rewrite app_nil_r |].
  unfold ip_network, valid.
  destruct (parse (candidate line)); cbn [negb List.map];
    [reflexivity | now rewrite app_nil_r].
Qed.

Lemma read_lines_spec lines : forall cidrs,
  read_lines parse cidrs lines
  = (List.map (fun c => Stdout (InvalidCidrSkipped c))
              (filter (fun c => negb (valid parse c)) (candidates_of lines)),
     cidrs ++ filter (valid parse) (candidates_of lines)).
Proof.
  induction lines as [|line lines IH]; intros cidrs.
  - cbn. now rewrite app_nil_r.
  - cbn [read_lines]. rewrite read_line_spec, IH.
    rewrite (candidates_of_cons line lines), !filter_app, map_app, app_assoc.
    reflexivity.
Qed.

Section Loader.

Variable w : world.


(** Whatever the file, a list that the loader returns holds valid
    prefixes only. *)
Lemma read_cidrs_from_file_valid filename out cidrs :
  read_cidrs_from_file parse w filename = (out, Ok cidrs) ->
  Forall (fun c => valid parse c = true) cidrs.
Proof.
  unfold read_cidrs_from_file.
  destruct (files w filename) as [e|text failure].
  - unfold read_failed. destruct e; cbn; intros [= _ <-]; constructor.
  - rewrite read_lines_spec. cbn [app].
    assert (V : Forall (fun c => valid parse c = true)
                       (filter (valid parse) (candidates_of
                          (readlines (utf_8_sig text))))).
    { apply Forall_forall. intros c H. now apply filter_In in H. }
    destruct failure as [e|]; [| now intros [= _ <-]].
    unfold read_failed. destruct e; cbn; intros [= _ <-]; assumption.
Qed.

(** The loader prints; it writes nothing to the log. *)
Lemma read_cidrs_from_file_prints filename out r :
  read_cidrs_from_file parse w filename = (out, r) ->
  forall ev, In ev out -> exists l, ev = Stdout l.
Proof.
  unfold read_cidrs_from_file.
  assert (P : forall e cidrs out' r',
             read_failed filename e cidrs = (out', r') ->
             forall ev, In ev out' -> exists l, ev = Stdout l).
  { intros e cidrs out' r'. unfold read_failed.
    destruct e; cbn; intros [= <- _] ev H; cbn in H;
      try contradiction; destruct H as [<-|[]]; eauto. }
  destruct (files w filename) as [e|text failure]; [now apply P |].
  rewrite read_lines_spec.
  assert (M : forall ev,
             In ev (List.map (fun c => Stdout (InvalidCidrSkipped c))
                      (filter (fun c => negb (valid parse c))
                              (candidates_of (readlines (utf_8_sig text))))) ->
             exists l, ev = Stdout l).
  { intros ev H. apply in_map_iff in H. destruct H as (c & <- & _). eauto. }
  destruct failure as [e|]; [| intros [= <- _]; exact M].
  cbn [bind].
  destruct (read_failed filename e _) as [out' r'] eqn:F.
  intros [= <- _] ev H. apply in_app_iff in H. destruct H as [H|H].
  - now apply M.
  - eapply P; eauto.
Qed.

End Loader.

(** *** Candidates that do not parse, and prefixes of the other family *)

Lemma covers_other_family version_info target_network target
      covering_network n :
  parse target_network = Some target ->
  parse covering_network = Some n ->
  version n <> version target ->
  covers parse version_info target_network target covering_network
  = Raise TypeError.
Proof.
  intros Pt Pc V. unfold covers, ip_network. rewrite Pc. cbn [rbind].
  assert (E : ipversion_eqb (version target) (version n) = false).
  { destruct (ipversion_eqb (version target) (version n)) eqn:E;
      [| reflexivity].
    apply ipversion_eqb_eq in E. congruence. }
  destruct (has_subnet_of version_info).
  - unfold subnet_of. now rewrite E.
  - unfold is_subnet_of, ip_network. rewrite Pt, Pc. cbn [rbind].
    unfold address_ge, address_lt. fold (version target). fold (version n).
    now rewrite E.
Qed.

Lemma covered_by_not_ValueError version_info target_network target
      covering_networks :
  covered_by parse version_info target_network target covering_networks
  <> Raise ValueError.
Proof.
  induction covering_networks as [|c rest IH]; cbn [covered_by];
    [discriminate |].
  destruct (covers parse version_info target_network target c)
    as [[|]|[]]; try assumption; discriminate.
Qed.

(** *** The report and the run *)

Section Run.

Variable version_info : nat * nat.
Variable w : world.

(** C1, on an empty list of ER routes: the division of line 116 raises
    [ZeroDivisionError] after the totals are written, so no percentage is
    written and [write_log_file] does not complete. *)
Theorem write_log_file_no_er_routes ms_routes covered_routes uncovered_routes
        ms_file er_file :
  exists log_filename,
    write_log_file parse w ms_routes [] covered_routes uncovered_routes
                   ms_file er_file
    = ([LogWrite log_filename
          (LogHeader (now_long w) ms_file (length ms_routes) er_file 0);
        LogWrite log_filename
          (LogTotals 0 (length covered_routes) (length uncovered_routes))],
       Raise ZeroDivisionError).
Proof. eexists. reflexivity. Qed.

(** With at least one ER route the percentage is written, as the text of
    [covered / total * 100] to one decimal place. *)
Lemma write_log_file_percentage ms_routes er_route er_routes covered_routes
      uncovered_routes ms_file er_file :
  let total := length (er_route :: er_routes) in
  exists log_filename rest,
    fst (write_log_file parse w ms_routes (er_route :: er_routes)
                        covered_routes uncovered_routes ms_file er_file)
    = LogWrite log_filename
        (LogHeader (now_long w) ms_file (length ms_routes) er_file total)
      :: LogWrite log_filename
           (LogTotals total (length covered_routes)
                      (length uncovered_routes))
      :: LogWrite log_filename
           (LogCoveragePercentage
              (format_1f
                 (PrimFloat.mul
                    (PrimFloat.div
                       (float_of_int (Z.of_nat (length covered_routes)))
                       (float_of_int (Z.of_nat total)))
                    (float_of_int 100))))
      :: rest.
Proof.
  intros total. unfold write_log_file, true_div.
  replace (Z.of_nat (length (er_route :: er_routes)) =? 0) with false
    by (symmetry; apply Z.eqb_neq; cbn [length]; lia).
  cbn [bind emit lift app fst].
  match goal with
  | |- context [bind ?m ?k] => destruct (bind m k) as [t r]
  end.
  cbn. eexists _, _. reflexivity.
Qed.

Lemma print_each_spec ls :
  print_each ls = (List.map Stdout ls, Ok tt).
Proof.
  induction ls as [|l ls IH]; [reflexivity |].
  cbn [print_each]. rewrite IH. reflexivity.
Qed.

Lemma partition_routes_no_ms er_routes :
  Forall (fun c => valid parse c = true) er_routes ->
  forall covered_routes uncovered_routes,
    partition_routes parse version_info [] er_routes
                     covered_routes uncovered_routes
    = Ok (covered_routes, uncovered_routes ++ er_routes).
Proof.
  induction 1 as [|er_route rest V _ IH]; intros covered uncovered.
  - cbn. now rewrite app_nil_r.
  - cbn [partition_routes]. unfold is_network_covered, ip_network.
    unfold valid in V. destruct (parse er_route); [| discriminate].
    cbn. rewrite IH, <- app_assoc. reflexivity.
Qed.

(** C9, where the missing file is the ER file: the loader reports it and
    returns no prefix, and the run then ends in [write_log_file] with an
    uncaught [ZeroDivisionError], exit status 1, before the report is
    complete. *)
Theorem main_er_file_missing out ms_routes :
  version_lt version_info (3, 6)%nat = false ->
  read_cidrs_from_file parse w ms_file = (out, Ok ms_routes) ->
  files w er_file = OpenFails FileNotFoundError ->
  read_cidrs_from_file parse w er_file
  = ([Stdout (FileNotFound er_file)], Ok [])
  /\ snd (main parse version_info w) = Raise ZeroDivisionError
  /\ exit_status (snd (main parse version_info w)) = 1
  /\ forall log_filename,
       ~ In (LogWrite log_filename LogEnd) (fst (main parse version_info w)).
Proof.
  intros V MS ER.
  assert (R : read_cidrs_from_file parse w er_file
              = ([Stdout (FileNotFound er_file)], Ok []))
    by (unfold read_cidrs_from_file; now rewrite ER).
  split; [exact R |].
  unfold main. rewrite V, MS, R. cbn.
  repeat split.
  intros log_filename H. rewrite !in_app_iff in H. cbn in H.
  repeat destruct H as [H|H]; try discriminate; try contradiction.
  destruct (read_cidrs_from_file_prints w _ _ _ MS _ H). discriminate.
Qed.

(** Where the missing file is the MS file and at least one ER route is
    loaded, the run completes and every ER route is reported uncovered. *)
Lemma main_ms_file_missing out er_route er_routes :
  version_lt version_info (3, 6)%nat = false ->
  files w ms_file = OpenFails FileNotFoundError ->
  read_cidrs_from_file parse w er_file = (out, Ok (er_route :: er_routes)) ->
  let trace := fst (main parse version_info w) in
  snd (main parse version_info w) = Ok tt
  /\ In (Stdout (FileNotFound ms_file)) trace
  /\ In (Stdout (CoveredByMs 0)) trace
  /\ In (Stdout (NotCoveredByMs (length (er_route :: er_routes)))) trace
  /\ exists log_filename,
       In (LogWrite log_filename
             (LogUncoveredTable
                (List.map (with_range parse) (er_route :: er_routes))
                (length (er_route :: er_routes)))) trace.
Proof.
  intros V MS ER.
  assert (R : read_cidrs_from_file parse w ms_file
              = ([Stdout (FileNotFound ms_file)], Ok []))
    by (unfold read_cidrs_from_file; now rewrite MS).
  pose proof (read_cidrs_from_file_valid w _ _ _ ER) as Valid.
  unfold main. rewrite V, R, ER.
  cbn [bind ret print_each emit app lift].
  rewrite (partition_routes_no_ms _ Valid).
  unfold write_log_file, true_div.
  replace (Z.of_nat (length (er_route :: er_routes)) =? 0) with false
    by (symmetry; apply Z.eqb_neq; cbn [length]; lia).
  cbn -[format_1f PrimFloat.mul PrimFloat.div float_of_int Z.of_nat
        List.map ms_file er_file lit].
  rewrite print_each_spec.
  cbn -[format_1f PrimFloat.mul PrimFloat.div float_of_int Z.of_nat
        List.map ms_file er_file lit].
  repeat split.
  - rewrite !in_app_iff; cbn; tauto.
  - rewrite !in_app_iff; cbn; tauto.
  - rewrite !in_app_iff; cbn; tauto.
  - eexists. rewrite !in_app_iff; cbn. tauto.
Qed.

(** *** No run ends with [ValueError] *)

Lemma snd_bind_Raise {E A B} (m : io E A) (f : A -> io E B) e :
  snd (bind m f) = Raise e ->
  snd m = Raise e \/ exists a, snd m = Ok a /\ snd (f a) = Raise e.
Proof.
  destruct m as [t [a|e']]; cbn.
  - destruct (f a) as [t' r] eqn:F. cbn. intros ->. right.
    exists a. now rewrite F.
  - intros [= ->]. left. reflexivity.
Qed.

Lemma read_cidrs_from_file_not_ValueError filename :
  snd (read_cidrs_from_file parse w filename) <> Raise ValueError.
Proof.
  assert (F : forall e cidrs,
             snd (read_failed filename e cidrs) <> Raise ValueError)
    by (intros [] cidrs; cbn; discriminate).
  unfold read_cidrs_from_file.
  destruct (files w filename) as [e|text failure]; [apply F |].
  destruct (read_lines parse [] _) as [out cidrs].
  destruct failure as [e|]; [| discriminate].
  specialize (F e cidrs). now destruct (read_failed filename e cidrs).
Qed.

Lemma partition_routes_not_ValueError ms_routes er_routes :
  Forall (fun c => valid parse c = true) er_routes ->
  forall covered_routes uncovered_routes,
    partition_routes parse version_info ms_routes er_routes
                     covered_routes uncovered_routes
    <> Raise ValueError.
Proof.
  induction 1 as [|er_route rest V _ IH]; intros covered uncovered;
    [discriminate |].
  cbn [partition_routes]. unfold is_network_covered, ip_network.
  unfold valid in V. destruct (parse er_route) as [n|]; [| discriminate].
  cbn [rbind].
  pose proof (covered_by_not_ValueError version_info er_route n ms_routes)
    as C.
  destruct (covered_by parse version_info er_route n ms_routes)
    as [[[|] covering]|e]; cbn [rbind].
  - apply IH.
  - apply IH.
  - congruence.
Qed.

Lemma write_covered_rows_not_ValueError log_filename covered_routes :
  snd (write_covered_rows parse log_filename covered_routes)
  <> Raise ValueError.
Proof.
  induction covered_routes as [|[er_route [ms_route|]] rest IH]; cbn;
    try discriminate.
  now destruct (write_covered_rows parse log_filename rest).
Qed.

Lemma write_log_file_not_ValueError ms_routes er_routes covered_routes
      uncovered_routes ms_file er_file :
  snd (write_log_file parse w ms_routes er_routes covered_routes
                      uncovered_routes ms_file er_file)
  <> Raise ValueError.
Proof.
  unfold write_log_file, true_div. intros H.
  repeat (apply snd_bind_Raise in H;
          destruct H as [H | (? & _ & H)]; [try discriminate |]).
  - destruct (_ =? 0); discriminate.
  - destruct (is_nil covered_routes); cbn [negb] in H; [discriminate |].
    repeat (apply snd_bind_Raise in H;
            destruct H as [H | (? & _ & H)]; [try discriminate |]).
    + now apply write_covered_rows_not_ValueError in H.
    + discriminate.
  - destruct (is_nil uncovered_routes); discriminate.
  - discriminate.
Qed.

Lemma print_covered_Ok pairs : snd (print_covered parse pairs) = Ok tt.
Proof.
  induction pairs as [|[er_route ms_route] rest IH]; [reflexivity |].
  cbn. now destruct (print_covered parse rest).
Qed.

(** A run may end early, but never with [ValueError]: every candidate it
    checks has been parsed by the loader. *)
Lemma main_not_ValueError :
  snd (main parse version_info w) <> Raise ValueError.
Proof.
  unfold main. intros H.
  apply snd_bind_Raise in H. destruct H as [H | (? & _ & H)].
  { destruct (version_lt version_info (3, 6)%nat); discriminate. }
  apply snd_bind_Raise in H. destruct H as [H | (? & _ & H)];
    [discriminate |].
  apply snd_bind_Raise in H. destruct H as [H | (ms_routes & _ & H)].
  { now apply read_cidrs_from_file_not_ValueError in H. }
  apply snd_bind_Raise in H. destruct H as [H | (er_routes & ER & H)].
  { now apply read_cidrs_from_file_not_ValueError in H. }
  apply snd_bind_Raise in H. destruct H as [H | (? & _ & H)];
    [discriminate |].
  assert (V : Forall (fun c => valid parse c = true) er_routes).
  { destruct (read_cidrs_from_file parse w er_file) as [out r] eqn:R.
    cbn in ER. subst r. eapply read_cidrs_from_file_valid; eauto. }
  apply snd_bind_Raise in H. destruct H as [H | ([covered uncovered] & _ & H)].
  { cbn in H. now apply partition_routes_not_ValueError in H. }
  apply snd_bind_Raise in H. destruct H as [H | (log_filename & _ & H)].
  { now apply write_log_file_not_ValueError in H. }
  apply snd_bind_Raise in H. destruct H as [H | (? & _ & H)];
    [discriminate |].
  apply snd_bind_Raise in H. destruct H as [H | (? & _ & H)].
  { destruct (is_nil uncovered); cbn [negb] in H;
      rewrite print_each_spec in H; discriminate. }
  apply snd_bind_Raise in H. destruct H as [H | (? & _ & H)];
    [| discriminate].
  destruct (is_nil covered); cbn [negb] in H; [discriminate |].
  apply snd_bind_Raise in H. destruct H as [H | (? & _ & H)];
    [discriminate |].
  apply snd_bind_Raise in H. destruct H as [H | (? & _ & H)].
  - now rewrite print_covered_Ok in H.
  - destruct (5 <? length covered)%nat; discriminate.
Qed.

End Run.

(** C3, as the code has it: a candidate that does not parse makes
    [is_network_covered] raise [ValueError] before any covering prefix is
    looked at.  No run is ended by it: the strings that the loader returns
    all parse, on a string that parses the check never raises
    [ValueError], and [main] never ends with [ValueError]. *)
Theorem is_network_covered_malformed_candidate :
  (forall version_info target_network covering_networks,
      parse target_network = None ->
      is_network_covered parse version_info target_network covering_networks
      = Raise ValueError)
  /\ (forall w filename out cidrs er_route,
        read_cidrs_from_file parse w filename = (out, Ok cidrs) ->
        In er_route cidrs ->
        parse er_route <> None
        /\ forall version_info covering_networks,
            is_network_covered parse version_info er_route covering_networks
            <> Raise ValueError)
  /\ (forall version_info w,
        snd (main parse version_info w) <> Raise ValueError).
Proof.
  split; [| split].
  - intros version_info target_network covering_networks H.
    unfold is_network_covered, ip_network. now rewrite H.
  - intros w filename out cidrs er_route R Hin.
    apply read_cidrs_from_file_valid in R.
    rewrite Forall_forall in R. specialize (R _ Hin). unfold valid in R.
    destruct (parse er_route) as [n|] eqn:P; [| discriminate].
    split; [discriminate |].
    intros version_info covering_networks.
    unfold is_network_covered, ip_network. rewrite P. cbn [rbind].
    apply covered_by_not_ValueError.
  - apply main_not_ValueError.
Qed.

End Containment.

End CidrCoverageFacts.

(** ** The coverage checker on concrete inputs *)

Module CidrCoverageExamples.
Import PyFacts CidrCoverage CidrCoverageSpec CidrCoverageFacts Examples.

Lemma parse_10_8 : parse_network (lit "10.0.0.0/8") = Some net_10_8.
Proof. vm_compute. reflexivity. Qed.

Lemma parse_loopback6 : parse_network (lit "::1/128") = Some net_loopback6.
Proof. vm_compute. reflexivity. Qed.

(** C2 fails on a list that holds a valid prefix of the other address
    family before the first covering prefix: [10.0.0.0/8] is covered by the
    second entry of the list, and the check raises [TypeError] at the
    first, on every version of the interpreter. *)
Theorem is_network_covered_other_family_raises version_info :
  first_covering parse_network net_10_8 [lit "::1/128"; lit "10.0.0.0/8"]
  = (true, Some (lit "10.0.0.0/8"))
  /\ is_network_covered parse_network version_info (lit "10.0.0.0/8")
                        [lit "::1/128"; lit "10.0.0.0/8"]
     = Raise TypeError.
Proof.
  split; [vm_compute; reflexivity |].
  unfold is_network_covered, ip_network. rewrite parse_10_8.
  cbn [rbind covered_by].
  rewrite (covers_other_family parse_network version_info _ _ _ _
             parse_10_8 parse_loopback6); [reflexivity | discriminate].
Qed.

(** The specification's example: [10.1.2.0/24] is covered by [10.0.0.0/8]
    and [172.16.0.0/16] is not. *)
Example partition_routes_example version_info :
  partition_routes parse_network version_info [lit "10.0.0.0/8"]
                   [lit "10.1.2.0/24"; lit "172.16.0.0/16"] [] []
  = Ok ([(lit "10.1.2.0/24", Some (lit "10.0.0.0/8"))],
        [lit "172.16.0.0/16"]).
Proof.
  unfold partition_routes, is_network_covered, covered_by, covers.
  destruct (has_subnet_of version_info); vm_compute; reflexivity.
Qed.

(** C3 as stated fails: the check of a candidate that does not parse
    raises [ValueError]; it does not answer "not covered". *)
Lemma is_network_covered_malformed_candidate_counterexample :
  parse_network (lit "not-a-cidr") = None
  /\ is_network_covered parse_network (3, 11)%nat (lit "not-a-cidr")
                        [lit "10.0.0.0/8"]
     = Raise ValueError
  /\ is_network_covered parse_network (3, 11)%nat (lit "not-a-cidr")
                        [lit "10.0.0.0/8"]
     <> Ok (false, None).
Proof.
  split; [vm_compute; reflexivity |].
  split; [vm_compute; reflexivity | vm_compute; discriminate].
Qed.

Lemma is_network_covered_malformed_candidate_witness :
  is_network_covered parse_network (3, 11)%nat (lit "not-a-cidr")
                     [lit "10.0.0.0/8"]
  = Raise ValueError
  /\ parse_network (lit "192.168.1.0/24") <> None
  /\ is_network_covered parse_network (3, 11)%nat (lit "192.168.1.0/24")
                        [lit "10.0.0.0/8"]
     <> Raise ValueError.
Proof.
  destruct (is_network_covered_malformed_candidate parse_network)
    as (M & L & _).
  split.
  - apply M. vm_compute. reflexivity.
  - destruct (L (cidr_world missing (Readable three_lines None)) er_file
                [Stdout (InvalidCidrSkipped (lit "not-a-cidr"))]
                [lit "10.0.0.0/8"; lit "192.168.1.0/24"]
                (lit "192.168.1.0/24")) as [V C].
    + vm_compute. reflexivity.
    + right. left. reflexivity.
    + split; [exact V | apply C].
Defined.

Lemma is_subnet_of_reflexive_transitive_witness :
  is_subnet_of parse_network (lit "10.1.2.0/24") (lit "10.1.2.0/24") = Ok true
  /\ is_subnet_of parse_network (lit "10.1.2.0/24") (lit "10.0.0.0/8")
     = Ok true.
Proof.
  destruct (is_subnet_of_reflexive_transitive parse_network) as [R T].
  split.
  - apply (R _ (make_network IPv4 167838208 24)). vm_compute. reflexivity.
  - apply (T _ (lit "10.1.0.0/16")); vm_compute; reflexivity.
Defined.


Lemma main_er_file_missing_witness :
  snd (main parse_network (3, 11)%nat (cidr_world ms_one_route missing))
  = Raise ZeroDivisionError
  /\ exit_status
       (snd (main parse_network (3, 11)%nat (cidr_world ms_one_route missing)))
     = 1.
Proof.
  destruct (main_er_file_missing parse_network (3, 11)%nat
              (cidr_world ms_one_route missing) [] [lit "10.0.0.0/8"])
    as (_ & R & E & _).
  - reflexivity.
  - vm_compute. reflexivity.
  - vm_compute. reflexivity.
  - split; assumption.
Defined.

(** The percentage of 1 covered route out of 3, and of 1 out of 2000. *)
Example format_1f_examples :
  format_1f (PrimFloat.mul (PrimFloat.div (float_of_int 1) (float_of_int 3))
                           (float_of_int 100)) = lit "33.3"
  /\ format_1f (PrimFloat.mul
                  (PrimFloat.div (float_of_int 1) (float_of_int 2000))
                  (float_of_int 100)) = lit "0.1".
Proof. split; vm_compute; reflexivity. Qed.

End CidrCoverageExamples.

(** ** The Elastiflow tool *)

Module ElasticFlowFacts.
Import PyFacts ElasticFlow ElasticFlowSpec.

(** *** Decimal text *)

Lemma int_of_digits_from (s : str) : forall acc,
  fold_left (fun acc c => 10 * acc + (Z.of_N c - 48)) s acc
  = acc * 10 ^ Z.of_nat (length s) + int_of_digits s.
Proof.
  unfold int_of_digits.
  induction s as [|c s IH]; intros acc.
  - cbn. lia.
  - cbn [fold_left length]. rewrite IH, (IH (10 * 0 + _)).
    rewrite Nat2Z.inj_succ, Z.pow_succ_r by lia. ring.
Qed.

Lemma int_of_digits_cons c s :
  int_of_digits (c :: s)
  = (Z.of_N c - 48) * 10 ^ Z.of_nat (length s) + int_of_digits s.
Proof.
  unfold int_of_digits at 1. cbn [fold_left].
  rewrite int_of_digits_from. ring.
Qed.

Lemma isdigit_of_digit d :
  0 <= d < 10 -> isdigit (Z.to_N (48 + d)) = true.
Proof.
  intros H. unfold isdigit. apply andb_true_iff.
  split; apply N.leb_le; lia.
Qed.

Lemma digits_of_pos_spec fuel : forall n acc,
  0 <= n < 10 ^ Z.of_nat fuel ->
  forallb isdigit acc = true ->
  forallb isdigit (digits_of_pos fuel n acc) = true
  /\ int_of_digits (digits_of_pos fuel n acc)
     = n * 10 ^ Z.of_nat (length acc) + int_of_digits acc.
Proof.
  induction fuel as [|fuel IH]; intros n acc B D.
  - cbn in B. assert (n = 0) by lia. subst n. cbn. auto.
  - cbn [digits_of_pos].
    assert (M : 0 <= n mod 10 < 10) by (apply Z.mod_pos_bound; lia).
    assert (D' : forallb isdigit (Z.to_N (48 + n mod 10) :: acc) = true)
      by (cbn [forallb]; now rewrite isdigit_of_digit).
    assert (V : Z.of_N (Z.to_N (48 + n mod 10)) - 48 = n mod 10) by lia.
    destruct (n <? 10) eqn:L.
    + split; [exact D' |].
      rewrite int_of_digits_cons, V. apply Z.ltb_lt in L.
      rewrite Z.mod_small by lia. reflexivity.
    + apply Z.ltb_ge in L.
      rewrite Nat2Z.inj_succ, Z.pow_succ_r in B by lia.
      destruct (IH (n / 10) (Z.to_N (48 + n mod 10) :: acc)) as [I1 I2];
        [ split; [apply Z.div_pos; lia
                 | apply Z.div_lt_upper_bound; lia]
        | exact D' |].
      split; [exact I1 |].
      rewrite I2, int_of_digits_cons, V. cbn [length].
      rewrite Nat2Z.inj_succ, Z.pow_succ_r by lia.
      rewrite (Z.div_mod n 10) at 3 by lia. ring.
Qed.

(** [str(n)] of a positive [n] is a string of decimal digits that reads
    back as [n]. *)
Lemma str_of_int_positive n :
  0 < n ->
  forallb isdigit (str_of_int n) = true /\ int_of_digits (str_of_int n) = n.
Proof.
  intros P. unfold str_of_int.
  replace (n <? 0) with false by (symmetry; apply Z.ltb_ge; lia).
  destruct (digits_of_pos_spec (S (Z.to_nat (Z.log2 n))) n []) as [D I].
  - split; [lia |].
    rewrite Nat2Z.inj_succ, Z2Nat.id by apply Z.log2_nonneg.
    apply Z.lt_le_trans with (2 ^ Z.succ (Z.log2 n)).
    + apply Z.log2_spec. exact P.
    + apply Z.pow_le_mono_l. lia.
  - reflexivity.
  - split; [exact D |]. rewrite I. cbn. lia.
Qed.

(** *** The payload *)

Lemma join_quoted subnets :
  join (lit " OR ")
       (List.map (fun subnet => [dquote] ++ subnet ++ [dquote]) subnets)
  = quoted_disjunction subnets.
Proof.
  induction subnets as [|subnet rest IH]; [reflexivity |].
  cbn [List.map join quoted_disjunction].
  destruct rest as [|next rest']; [reflexivity |].
  cbn [List.map] in *. rewrite IH.
  cbn [app]. rewrite <- app_assoc. reflexivity.
Qed.

Section Payload.

Variable cfg : config.

(** C7: the query text is the subnets in double quotes joined by [OR] in
    input order, and the time range runs from [now-Nd/d] to [now/d], both
    bounds included, where [N] is the day count written in decimal. *)
Theorem build_payload_filters subnets days agg_size :
  0 < days ->
  query_text (build_payload cfg subnets days agg_size)
  = Some (JStr (quoted_disjunction subnets))
  /\ time_range (build_payload cfg subnets days agg_size)
     = Some (JDict [(lit "gte",
                     JStr (lit "now-" ++ str_of_int days ++ lit "d/d"));
                    (lit "lte", JStr (lit "now/d"))])
  /\ forallb isdigit (str_of_int days) = true
  /\ int_of_digits (str_of_int days) = days.
Proof.
  intros P. split.
  - unfold build_payload. rewrite join_quoted. reflexivity.
  - split; [reflexivity | exact (str_of_int_positive days P)].
Qed.

End Payload.

(** *** The run *)

Section Run.

Variable cfg : config.
Variable w : world.

Lemma confirm_trace prompt :
  fst (confirm w prompt) = [InputPrompt (prompt ++ lit " [y/N]: ")].
Proof.
  unfold confirm. destruct (stdin_input w _) as [line|[]]; reflexivity.
Qed.

Lemma export_trace a buckets :
  exists rows rest,
    fst (export w a buckets) = CsvWritten (output a) rows :: rest
    /\ forall e, In e rest ->
                 exists m, e = LoggingError m \/ e = LoggingInfo m.
Proof.
  unfold export.
  assert (L : forall m e, In e [LoggingError m] ->
                          exists m, e = LoggingError m \/ e = LoggingInfo m)
    by (intros m e [<-|[]]; eauto).
  assert (I : forall m e, In e [LoggingInfo m] ->
                          exists m, e = LoggingError m \/ e = LoggingInfo m)
    by (intros m e [<-|[]]; eauto).
  assert (N : forall e : event, In e [] ->
                          exists m, e = LoggingError m \/ e = LoggingInfo m)
    by (intros e []).
  destruct (iterate buckets) as [items|e].
  - destruct (bucket_rows items) as [rows stopped].
    destruct (write_csv w (output a) _) as [[]|[]]; cbn;
      try (eexists _, _; split; [reflexivity | eauto]).
    destruct stopped; cbn; eexists _, _; split; try reflexivity; eauto.
  - destruct (write_csv w (output a) _) as [[]|[]]; cbn;
      eexists _, _; split; try reflexivity; eauto.
Qed.

Lemma export_posted a buckets : posted (fst (export w a buckets)) = [].
Proof.
  destruct (export_trace a buckets) as (rows & rest & -> & R).
  cbn. induction rest as [|e rest IH]; [reflexivity |].
  destruct (R e (or_introl eq_refl)) as [m [-> | ->]]; cbn;
    apply IH; intros e' H; apply R; now right.
Qed.

Lemma query_posted a username password payload :
  posted (fst (query w a username password payload))
  = [the_request a username password payload].
Proof.
  unfold query. fold (the_request a username password payload).
  set (req := the_request a username password payload).
  assert (T : posted
                (fst (match requests_post w req with
                      | Ok resp =>
                          if negb (status_ok resp)
                          then emit (LoggingError
                                       (RequestFailed RequestException)) ;;;
                               sys_exit 1
                          else
                            match body resp with
                            | Ok data =>
                                ' buckets <~ lift
                                   (aggregations <- dict_get data
                                      (lit "aggregations") (JDict []) ;;
                                    unique <- dict_get aggregations
                                      (lit "unique_destinations")
                                      (JDict []) ;;
                                    dict_get unique (lit "buckets")
                                             (JList [])) ;;
                                export w a buckets
                            | Raise ValueError =>
                                emit (LoggingError JsonDecodeFailed) ;;;
                                sys_exit 1
                            | Raise e => raise e
                            end
                      | Raise RequestException =>
                          emit (LoggingError
                                  (RequestFailed RequestException)) ;;;
                          sys_exit 1
                      | Raise e => raise e
                      end : io event unit)) = []).
  { destruct (requests_post w req) as [resp|[]]; try reflexivity.
    destruct (status_ok resp); [| reflexivity]. cbn [negb].
    destruct (body resp) as [data|[]]; try reflexivity.
    destruct (_ <- dict_get data _ _ ;; _) as [buckets|e]; [| reflexivity].
    cbn [bind lift]. pose proof (export_posted a buckets) as E.
    destruct (export w a buckets) as [t r]. exact E. }
  match type of T with
  | posted (fst ?m) = [] => destruct m as [t r]
  end.
  cbn in T. destruct (insecure a); cbn; now rewrite T.
Qed.

Local Arguments query : simpl never.
Local Arguments build_payload : simpl never.
Local Arguments wildcard_prompt : simpl never.
Local Arguments the_request : simpl never.
Local Arguments confirm : simpl never.

(** C4: with a wildcard in the index, a run without [--allow-wildcard]
    ends with status 2 on its first check; a run with [--allow-wildcard] and
    without [--confirm], whose user declines, issues no request, and ends
    with status 0 when the question was asked. *)
Theorem wildcard_index_guarded a :
  contains star (index a) = true ->
  (allow_wildcard a = false ->
   main cfg w a = ([LoggingError IndexContainsWildcard], Raise (SystemExit 2))
   /\ exit_status (snd (main cfg w a)) = 2
   /\ posted (fst (main cfg w a)) = [])
  /\ (allow_wildcard a = true ->
      confirm_flag a = false ->
      snd (confirm w (wildcard_prompt a)) = Ok false ->
      posted (fst (main cfg w a)) = []
      /\ (asked (fst (main cfg w a)) = true ->
          snd (main cfg w a) = Raise (SystemExit 0)
          /\ exit_status (snd (main cfg w a)) = 0)).
Proof.
  intros S. split.
  - intros A. unfold main. rewrite S, A. cbn. auto.
  - intros A C D. unfold main, load_subnets. rewrite S, A, C.
    pose proof (confirm_trace (wildcard_prompt a)) as T.
    destruct (confirm w (wildcard_prompt a)) as [t r].
    cbn in D, T. subst t r. cbn.
    credentials w a; try (split; [reflexivity | discriminate]);
      destruct (path_exists w (input a)); cbn;
      try (split; [reflexivity | discriminate]);
      destruct (read_csv w (input a)) as [rows|e]; cbn;
      try (split; [reflexivity | discriminate]);
      destruct (dry_run a); cbn;
      try (split; [reflexivity | discriminate]); auto.
Qed.

(** The request of a run without [--dry-run], if it issues one, carries
    the payload built from the loaded subnets. *)
Lemma main_posted_payload a r :
  dry_run a = false ->
  In r (posted (fst (main cfg w a))) ->
  exists subnets,
    snd (load_subnets w (input a)) = Ok subnets
    /\ data r = build_payload cfg subnets (days a) (size a).
Proof.
  intros D. unfold main, load_subnets. rewrite D.
  destruct (contains star (index a) && negb (allow_wildcard a)); cbn;
    [intros H; exact (False_ind _ H) |].
  credentials w a; try (intros H; exact (False_ind _ H));
    destruct (path_exists w (input a)); cbn;
    try (intros H; exact (False_ind _ H));
    destruct (read_csv w (input a)) as [rows|e]; cbn;
    try (intros H; exact (False_ind _ H)).
  all: match goal with
       | |- context [query w ?a' ?u ?p ?pl] =>
           pose proof (query_posted a' u p pl) as QP;
           destruct (query w a' u p pl) as [tq rq]; cbn in QP
       end.
  all: destruct (contains star (index a) && negb (confirm_flag a)); cbn;
    [ pose proof (confirm_trace (wildcard_prompt a)) as T;
      destruct (confirm w (wildcard_prompt a)) as [t [[|]|e]];
      cbn in T; subst t; cbn; try (intros H; exact (False_ind _ H)) |].
  all: rewrite QP; intros [<-|[]]; eexists; split; reflexivity.
Qed.

(** C5: a run with [--dry-run] issues no request, and the payload it
    prints is the one built from the loaded subnets, the day count and the
    size, which is the payload that the same arguments without [--dry-run]
    put in their request. *)
Theorem dry_run_sends_nothing a :
  dry_run a = true ->
  posted (fst (main cfg w a)) = []
  /\ forall payload,
       In payload (printed_payloads (fst (main cfg w a))) ->
       (exists subnets,
           snd (load_subnets w (input a)) = Ok subnets
           /\ payload = build_payload cfg subnets (days a) (size a))
       /\ forall r,
           In r (posted (fst (main cfg w (with_dry_run false a)))) ->
           data r = payload.
Proof.
  intros D.
  assert (P : posted (fst (main cfg w a)) = []
              /\ forall payload,
                   In payload (printed_payloads (fst (main cfg w a))) ->
                   exists subnets,
                     snd (load_subnets w (input a)) = Ok subnets
                     /\ payload
                        = build_payload cfg subnets (days a) (size a)).
  { unfold main, load_subnets. rewrite D.
    destruct (contains star (index a) && negb (allow_wildcard a)); cbn;
      [split; [reflexivity | intros ? H; exact (False_ind _ H)] |].
    credentials w a;
      try (split; [reflexivity | intros ? H; exact (False_ind _ H)]);
      destruct (path_exists w (input a)); cbn;
      try (split; [reflexivity | intros ? H; exact (False_ind _ H)]);
      destruct (read_csv w (input a)) as [rows|e]; cbn;
      try (split; [reflexivity | intros ? H; exact (False_ind _ H)]).
    all: split; [reflexivity |].
    all: intros payload [<-|[]]; eexists; split; reflexivity. }
  destruct P as [P1 P2]. split; [exact P1 |].
  intros payload H. destruct (P2 payload H) as (subnets & L & ->).
  split; [now exists subnets |].
  intros r R.
  destruct (main_posted_payload (with_dry_run false a) r eq_refl R)
    as (subnets' & L' & ->).
  change (input (with_dry_run false a)) with (input a) in L'.
  rewrite L in L'. injection L' as <-. reflexivity.
Qed.


End Run.

End ElasticFlowFacts.

(** ** The Elastiflow tool on concrete inputs *)

Module ElasticFlowExamples.
Import ElasticFlow ElasticFlowSpec ElasticFlowFacts Examples.

Lemma wildcard_index_guarded_witness :
  main flow_config (flow_world (Ok (lit "n"))) (flow_args elastic false false)
  = ([LoggingError IndexContainsWildcard], Raise (SystemExit 2))
  /\ posted (fst (main flow_config (flow_world (Ok (lit "n")))
                       (flow_args elastic true false))) = []
  /\ exit_status (snd (main flow_config (flow_world (Ok (lit "n")))
                            (flow_args elastic true false))) = 0.
Proof.
  destruct (wildcard_index_guarded flow_config (flow_world (Ok (lit "n")))
              (flow_args elastic false false) eq_refl) as [H _].
  destruct (wildcard_index_guarded flow_config (flow_world (Ok (lit "n")))
              (flow_args elastic true false) eq_refl) as [_ K].
  destruct (H eq_refl) as [H1 _].
  destruct (K eq_refl eq_refl) as [K1 K2]; [vm_compute; reflexivity |].
  destruct K2 as [_ K2]; [vm_compute; reflexivity |].
  auto.
Defined.

Lemma dry_run_sends_nothing_witness :
  let payload := build_payload flow_config two_subnets 7 10000 in
  posted (fst (main flow_config (flow_world (Ok (lit "y")))
                    (flow_args elastic true true))) = []
  /\ printed_payloads (fst (main flow_config (flow_world (Ok (lit "y")))
                                 (flow_args elastic true true))) = [payload]
  /\ length (posted (fst (main flow_config (flow_world (Ok (lit "y")))
                               (flow_args elastic true false)))) = 1%nat
  /\ forall r,
       In r (posted (fst (main flow_config (flow_world (Ok (lit "y")))
                               (flow_args elastic true false)))) ->
       data r = payload.
Proof.
  intros payload.
  destruct (dry_run_sends_nothing flow_config (flow_world (Ok (lit "y")))
              (flow_args elastic true true) eq_refl) as [P Q].
  split; [exact P |].
  split; [vm_compute; reflexivity |].
  split; [vm_compute; reflexivity |].
  destruct (Q payload) as [_ R]; [vm_compute; left; reflexivity | exact R].
Defined.

Lemma build_payload_filters_witness :
  query_text (build_payload flow_config two_subnets 7 10000)
  = Some (JStr ([dquote] ++ lit "10.0.0.0/24" ++ [dquote] ++ lit " OR "
                ++ [dquote] ++ lit "10.0.1.0/24" ++ [dquote]))
  /\ time_range (build_payload flow_config two_subnets 7 10000)
     = Some (JDict [(lit "gte", JStr (lit "now-7d/d"));
                    (lit "lte", JStr (lit "now/d"))]).
Proof.
  destruct (build_payload_filters flow_config two_subnets 7 10000 eq_refl)
    as (Q & T & _).
  split; [exact Q | exact T].
Defined.


End ElasticFlowExamples.

(** ** More about strings *)

Module StrFacts.
Import PyFacts.

Lemma lstrip_app u v :
  lstrip (u ++ v) = if forallb isspace u then lstrip v else lstrip u ++ v.
Proof.
  induction u as [|c u IH]; [reflexivity |].
  cbn [app lstrip forallb]. destruct (isspace c); [exact IH | reflexivity].
Qed.

Lemma lstrip_nil_iff s : lstrip s = [] <-> forallb isspace s = true.
Proof.
  induction s as [|c s IH]; cbn; [tauto |].
  destruct (isspace c); cbn; [exact IH | split; discriminate].
Qed.

(** [rstrip], read from the front of the string. *)
Lemma rstrip_cons c s :
  rstrip (c :: s)
  = match rstrip s with
    | [] => if isspace c then [] else [c]
    | r => c :: r
    end.
Proof.
  unfold rstrip. cbn [rev]. rewrite lstrip_app.
  destruct (forallb isspace (rev s)) eqn:F.
  - apply lstrip_nil_iff in F. rewrite F. cbn.
    destruct (isspace c); reflexivity.
  - rewrite rev_app_distr. cbn.
    destruct (lstrip (rev s)) as [|d r] eqn:L.
    + apply lstrip_nil_iff in L. congruence.
    + destruct (rev (d :: r)) eqn:R; [| reflexivity].
      apply (f_equal (@length N)) in R. rewrite length_rev in R.
      discriminate.
Qed.

Lemma rstrip_nil : rstrip [] = [].
Proof. reflexivity. Qed.

Lemma lstrip_idempotent s : lstrip (lstrip s) = lstrip s.
Proof.
  induction s as [|c s IH]; [reflexivity |].
  cbn [lstrip]. destruct (isspace c) eqn:C; [exact IH |].
  cbn [lstrip]. now rewrite C.
Qed.

Lemma rstrip_idempotent s : rstrip (rstrip s) = rstrip s.
Proof.
  unfold rstrip. now rewrite rev_involutive, lstrip_idempotent.
Qed.

(** Stripping the right end leaves a stripped left end alone. *)
Lemma lstrip_rstrip s : lstrip s = s -> lstrip (rstrip s) = rstrip s.
Proof.
  destruct s as [|c s]; [reflexivity |].
  cbn [lstrip]. destruct (isspace c) eqn:C.
  - intros H. apply (f_equal (@length N)) in H. cbn in H.
    assert (L : forall x, (length (lstrip x) <= length x)%nat).
    { induction x as [|d x IH]; cbn; [lia |].
      destruct (isspace d); cbn; lia. }
    specialize (L s). lia.
  - intros _. rewrite rstrip_cons.
    destruct (rstrip s); rewrite ?C; cbn [lstrip]; now rewrite C.
Qed.

Lemma strip_idempotent s : strip (strip s) = strip s.
Proof.
  unfold strip.
  rewrite (lstrip_rstrip (lstrip s)) by apply lstrip_idempotent.
  apply rstrip_idempotent.
Qed.

(** A stripped string neither starts nor ends with white space. *)
Lemma strip_starts s c r : strip s = c :: r -> isspace c = false.
Proof.
  intros H. pose proof (lstrip_rstrip (lstrip s) (lstrip_idempotent s)) as L.
  fold (strip s) in L. rewrite H in L. cbn in L.
  destruct (isspace c); [| reflexivity].
  apply (f_equal (@length N)) in L. cbn in L.
  assert (B : forall x, (length (lstrip x) <= length x)%nat).
  { induction x as [|d x IH]; cbn; [lia |].
    destruct (isspace d); cbn; lia. }
  specialize (B r). lia.
Qed.

Lemma rstrip_space s c : isspace c = true -> rstrip (s ++ [c]) = rstrip s.
Proof.
  intros C. unfold rstrip. rewrite rev_app_distr. cbn. now rewrite C.
Qed.

Lemma In_lstrip c s : In c (lstrip s) -> In c s.
Proof.
  induction s as [|d s IH]; cbn; [tauto |].
  destruct (isspace d); cbn; tauto.
Qed.

Lemma In_strip c s : In c (strip s) -> In c s.
Proof.
  unfold strip, rstrip. intros H.
  apply In_lstrip. apply in_rev. apply In_lstrip. now apply in_rev in H.
Qed.

Lemma contains_In c s : contains c s = true <-> In c s.
Proof.
  unfold contains. rewrite existsb_exists. split.
  - intros (x & H & E). apply N.eqb_eq in E. now subst.
  - intros H. exists c. split; [exact H | apply N.eqb_refl].
Qed.

End StrFacts.

(** ** More about the coverage checker *)

Module CidrCoverageMore.
Import PyFacts StrFacts CidrCoverage CidrCoverageSpec CidrCoverageMoreSpec.
Import CidrCoverageFacts.

Section Containment.

Variable parse : str -> option network.

(** X1: [is_subnet_of] answers [False] when either string does not parse,
    raises [TypeError] when the two networks have different versions (the
    [try] only catches [ValueError]), and otherwise compares the two
    ranges. *)
Theorem is_subnet_of_cases subnet supernet :
  match parse subnet, parse supernet with
  | Some a, Some b =>
      if ipversion_eqb (version a) (version b)
      then is_subnet_of parse subnet supernet
           = Ok ((a_ip (network_address b) <=? a_ip (network_address a))
                 && (a_ip (broadcast_address a)
                     <=? a_ip (broadcast_address b)))
      else is_subnet_of parse subnet supernet = Raise TypeError
  | _, _ => is_subnet_of parse subnet supernet = Ok false
  end.
Proof.
  unfold is_subnet_of, ip_network.
  destruct (parse subnet) as [a|]; [| reflexivity].
  destruct (parse supernet) as [b|]; [| reflexivity].
  cbn [rbind].
  destruct (ipversion_eqb (version a) (version b)) eqn:V.
  - apply ipversion_eqb_eq in V.
    rewrite (address_ge_same (network_address a) (network_address b) V).
    cbn [rbind].
    destruct (a_ip (network_address b) <=? a_ip (network_address a));
      [| reflexivity].
    rewrite (address_le_same (broadcast_address a) (broadcast_address b) V).
    reflexivity.
  - unfold address_ge, address_lt. fold (version a). fold (version b).
    now rewrite V.
Qed.


Section Covered.



Variable version_info : nat * nat.

(** What [covers] answering [True] means. *)
Lemma covers_true target_network target covering_network :
  parse target_network = Some target ->
  covers parse version_info target_network target covering_network = Ok true
  <-> is_subnet_of parse target_network covering_network = Ok true.
Proof.
  intros Pt. rewrite is_subnet_of_true.
  destruct (parse covering_network) as [n|] eqn:Pc.
  - destruct (ipversion_eqb (version n) (version target)) eqn:V.
    + apply ipversion_eqb_eq in V.
      rewrite (covers_same_family parse _ _ _ _ n Pt Pc V).
      unfold covering, within. rewrite Pc. split.
      * intros [= H]. apply andb_true_iff in H. destruct H as [H1 H2].
        apply Z.leb_le in H1, H2. exists target, n. auto.
      * intros (a & b & Ea & [= <-] & _ & H1 & H2).
        assert (a = target) by congruence. subst a.
        f_equal. apply andb_true_iff. split; now apply Z.leb_le.
    + assert (V' : version n <> version target).
      { intros E. apply ipversion_eqb_eq in E. congruence. }
      rewrite (covers_other_family parse _ _ _ _ n Pt Pc V').
      split; [discriminate |].
      intros (a & b & Ea & [= <-] & W & _).
      assert (a = target) by congruence. subst a. unfold within in W.
      congruence.
  - rewrite covers_invalid by assumption. split; [discriminate |].
    intros (a & b & _ & [=] & _).
Qed.


(** X5: covering entries that do not parse are skipped: removing them
    from the list changes nothing. *)
Theorem is_network_covered_skips_invalid target_network covering_networks :
  is_network_covered parse version_info target_network
                     (filter (valid parse) covering_networks)
  = is_network_covered parse version_info target_network covering_networks.
Proof.
  unfold is_network_covered. destruct (ip_network parse target_network)
    as [target|e]; [| reflexivity].
  cbn [rbind].
  induction covering_networks as [|c rest IH]; [reflexivity |].
  cbn [filter covered_by]. unfold valid at 1.
  destruct (parse c) as [n|] eqn:Pc.
  - cbn [covered_by]. now rewrite IH.
  - now rewrite covers_invalid.
Qed.

(** X6: the first match wins: once a list gives a covering prefix, longer
    lists with more entries after it give the same answer. *)
Theorem is_network_covered_first_match target_network covering_networks
        more c :
  is_network_covered parse version_info target_network covering_networks
  = Ok (true, Some c) ->
  is_network_covered parse version_info target_network
                     (covering_networks ++ more)
  = Ok (true, Some c).
Proof.
  unfold is_network_covered. destruct (ip_network parse target_network)
    as [target|e]; [| discriminate].
  cbn [rbind].
  induction covering_networks as [|c0 rest IH]; cbn [covered_by app];
    [discriminate |].
  destruct (covers parse version_info target_network target c0)
    as [[|]|[]]; auto.
Qed.

(** X7: a prefix that parses covers itself: with the candidate at the
    head of the list the check returns it. *)
Theorem is_network_covered_self target_network target rest :
  parse target_network = Some target ->
  is_network_covered parse version_info target_network
                     (target_network :: rest)
  = Ok (true, Some target_network).
Proof.
  intros Pt. unfold is_network_covered, ip_network. rewrite Pt.
  cbn [rbind covered_by].
  assert (C : covers parse version_info target_network target target_network
              = Ok true).
  { apply (covers_true _ _ _ Pt). apply is_subnet_of_true.
    exists target, target. auto using within_refl. }
  now rewrite C.
Qed.

End Covered.

(** *** The partition of the ER routes *)

Section Partition.

Variable version_info : nat * nat.

Lemma filter_lengths {A} (f : A -> bool) (l : list A) :
  (length (filter f l) + length (filter (fun x => negb (f x)) l)
   = length l)%nat.
Proof.
  induction l as [|x l IH]; [reflexivity |].
  cbn [filter]. destruct (f x); cbn [negb length]; lia.
Qed.

Lemma partition_routes_acc ms_routes er_routes :
  forall covered uncovered covered' uncovered',
    partition_routes parse version_info ms_routes er_routes
                     covered uncovered
    = Ok (covered', uncovered') ->
    exists pairs,
      covered' = covered ++ pairs
      /\ List.map fst pairs
         = filter (reported_covered parse version_info ms_routes) er_routes
      /\ uncovered'
         = uncovered
           ++ filter (fun e => negb (reported_covered parse version_info
                                                      ms_routes e))
                     er_routes
      /\ Forall (fun p => is_network_covered parse version_info (fst p)
                                              ms_routes
                          = Ok (true, snd p)) pairs.
Proof.
  induction er_routes as [|er_route rest IH];
    intros covered uncovered covered' uncovered'.
  - cbn. intros [= <- <-]. exists []. now rewrite !app_nil_r.
  - cbn [partition_routes filter].
    pose proof (eq_refl (reported_covered parse version_info ms_routes
                                          er_route)) as R.
    unfold reported_covered at 2 in R.
    destruct (is_network_covered parse version_info er_route ms_routes)
      as [[[|] covering_route]|e] eqn:C; rewrite R; cbn [rbind negb];
      [| | discriminate].
    + intros H. destruct (IH _ _ _ _ H) as (pairs & E1 & M & E2 & F).
      exists ((er_route, covering_route) :: pairs).
      rewrite E1, E2, <- app_assoc. cbn [List.map fst app]. rewrite M.
      repeat split. constructor; assumption.
    + intros H. destruct (IH _ _ _ _ H) as (pairs & E1 & M & E2 & F).
      exists pairs. rewrite E1, E2, <- app_assoc. cbn [app]. auto.
Qed.

(** X8: the loop of [main] splits the ER routes in two: the covered list
    holds, in input order, the routes the check reports covered, each with
    the prefix the check returned; the uncovered list holds the others in
    input order; so the two counts add up to the number of ER routes. *)
Theorem partition_routes_splits ms_routes er_routes covered uncovered :
  partition_routes parse version_info ms_routes er_routes [] []
  = Ok (covered, uncovered) ->
  List.map fst covered
  = filter (reported_covered parse version_info ms_routes) er_routes
  /\ uncovered
     = filter (fun e => negb (reported_covered parse version_info
                                               ms_routes e)) er_routes
  /\ Forall (fun p => is_network_covered parse version_info (fst p) ms_routes
                       = Ok (true, snd p)) covered
  /\ (length covered + length uncovered = length er_routes)%nat.
Proof.
  intros H. destruct (partition_routes_acc _ _ _ _ _ _ H)
    as (pairs & E1 & M & E2 & F).
  cbn [app] in E1, E2. subst covered uncovered.
  repeat split; try assumption.
  rewrite <- (length_map fst pairs), M. apply filter_lengths.
Qed.

End Partition.

(** *** Lines and candidates *)

(** The line iterator, one character at a time. *)
Lemma readlines_from_cons cur c text :
  readlines_from cur (c :: text)
  = if N.eqb c 10 then rev (10%N :: cur) :: readlines_from [] text
    else if N.eqb c 13
         then match text with
              | d :: text' =>
                  if N.eqb d 10
                  then rev (10%N :: cur) :: readlines_from [] text'
                  else rev (10%N :: cur) :: readlines_from [] text
              | [] => rev (10%N :: cur) :: readlines_from [] text
              end
         else readlines_from (c :: cur) text.
Proof.
  destruct c as [|p]; [reflexivity |].
  do 4 (try destruct p as [p|p|]); try reflexivity.
  destruct text as [|d text']; [reflexivity |].
  destruct d as [|q]; [reflexivity |].
  do 4 (try destruct q as [q|q|]); reflexivity.
Qed.

Lemma after_last_clean sep s : contains sep (after_last sep s) = false.
Proof.
  induction s as [|c s IH]; [reflexivity |].
  cbn [after_last]. destruct (contains sep s) eqn:C; [exact IH |].
  destruct (N.eqb c sep) eqn:E; [exact C |].
  unfold contains in *. cbn [existsb]. now rewrite N.eqb_sym, E, C.
Qed.

Lemma strip_space_end s c : isspace c = true -> strip (s ++ [c]) = strip s.
Proof.
  intros C. unfold strip. rewrite lstrip_app.
  destruct (forallb isspace s) eqn:F.
  - apply lstrip_nil_iff in F. rewrite F. cbn. now rewrite C.
  - now rewrite rstrip_space.
Qed.

(** The shape of a candidate: stripped, and with no arrow left in it. *)
Lemma candidate_shape line :
  strip (candidate line) = candidate line
  /\ contains arrow (candidate line) = false.
Proof.
  unfold candidate. split; [apply strip_idempotent |].
  destruct (contains arrow (strip (after_last arrow (strip line)))) eqn:C;
    [| reflexivity].
  apply contains_In, In_strip, contains_In in C.
  now rewrite after_last_clean in C.
Qed.

(** The shape of the valid prefixes of a text. *)
Lemma valid_prefixes_shape text :
  Forall (fun c => c <> []
                   /\ strip c = c
                   /\ contains arrow c = false
                   /\ valid parse c = true) (valid_prefixes parse text).
Proof.
  apply Forall_forall. intros c H.
  unfold valid_prefixes, candidates, candidates_of in H.
  apply filter_In in H. destruct H as [H V].
  apply filter_In in H. destruct H as [H NE].
  apply in_map_iff in H. destruct H as (line & <- & _).
  destruct (candidate_shape line) as [S A].
  repeat split; try assumption.
  intros E. rewrite E in NE. discriminate.
Qed.

Section Loader.

Variable w : world.

(** What the loader returns, by the state of the file. *)
Lemma read_cidrs_from_file_result filename out cidrs :
  read_cidrs_from_file parse w filename = (out, Ok cidrs) ->
  match files w filename with
  | OpenFails _ => cidrs = []
  | Readable text _ => cidrs = valid_prefixes parse text
  end.
Proof.
  unfold read_cidrs_from_file.
  destruct (files w filename) as [e|text failure].
  - unfold read_failed. destruct e; cbn; now intros [= _ <-].
  - rewrite read_lines_spec. cbn [app].
    fold (candidates text). fold (valid_prefixes parse text).
    destruct failure as [e|]; [| now intros [= _ <-]].
    unfold read_failed. destruct e; cbn; now intros [= _ <-].
Qed.

(** X9: every string that the loader returns is non-empty, has no white
    space at either end, holds no arrow, and parses. *)
Theorem read_cidrs_from_file_shape filename out cidrs :
  read_cidrs_from_file parse w filename = (out, Ok cidrs) ->
  Forall (fun c => c <> []
                   /\ strip c = c
                   /\ contains arrow c = false
                   /\ valid parse c = true) cidrs.
Proof.
  intros R. apply read_cidrs_from_file_result in R.
  destruct (files w filename) as [e|text failure]; subst cidrs.
  - constructor.
  - apply valid_prefixes_shape.
Qed.

(** X10: whatever the state of the file, as long as its failures are
    ordinary exceptions, the loader returns a list; when the file cannot be
    opened the list is empty and exactly one line is printed. *)
Theorem read_cidrs_from_file_returns filename :
  ordinary (files w filename) = true ->
  exists out cidrs,
    read_cidrs_from_file parse w filename = (out, Ok cidrs)
    /\ forall e, files w filename = OpenFails e ->
                 cidrs = [] /\ length out = 1%nat.
Proof.
  unfold read_cidrs_from_file, ordinary.
  destruct (files w filename) as [e|text failure].
  - intros O. unfold read_failed.
    destruct e; try discriminate; cbn; eexists _, _;
      (split; [reflexivity | intros ? _; split; reflexivity]).
  - rewrite read_lines_spec.
    destruct failure as [e|]; intros O.
    + unfold read_failed.
      destruct e; try discriminate; cbn; eexists _, _;
        (split; [reflexivity | intros ? [=]]).
    + eexists _, _. split; [reflexivity | intros ? [=]].
Qed.

End Loader.

(** X11: a byte order mark at the start of the file is not part of the
    first line: the file loads as the same text without the mark. *)
Theorem read_cidrs_from_file_bom w w' filename text failure :
  files w filename = Readable (BOM :: text) failure ->
  files w' filename = Readable text failure ->
  utf_8_sig text = text ->
  read_cidrs_from_file parse w filename
  = read_cidrs_from_file parse w' filename.
Proof.
  intros F F' U. unfold read_cidrs_from_file. rewrite F, F'.
  replace (utf_8_sig (BOM :: text)) with text by reflexivity.
  now rewrite U.
Qed.

Lemma readlines_from_crlf text : forall cur,
  contains 13 text = false ->
  readlines_from cur (to_crlf text) = readlines_from cur text.
Proof.
  induction text as [|c text IH]; intros cur H; [reflexivity |].
  unfold contains in H. cbn [existsb] in H.
  apply orb_false_iff in H. destruct H as [C H].
  cbn [to_crlf]. rewrite (readlines_from_cons cur c text).
  rewrite N.eqb_sym in C.
  destruct (N.eqb c 10) eqn:E.
  - rewrite readlines_from_cons. cbn. now rewrite IH.
  - rewrite readlines_from_cons, E, C. now apply IH.
Qed.

(** X12: line endings do not matter: a text with line feeds and the same
    text with carriage return and line feed load alike. *)
Theorem read_cidrs_from_file_crlf w w' filename text failure :
  files w filename = Readable text failure ->
  files w' filename = Readable (to_crlf text) failure ->
  contains 13 text = false ->
  read_cidrs_from_file parse w' filename
  = read_cidrs_from_file parse w filename.
Proof.
  intros F F' H. unfold read_cidrs_from_file. rewrite F, F'.
  assert (E : readlines (utf_8_sig (to_crlf text))
              = readlines (utf_8_sig text)).
  { unfold readlines. destruct text as [|c text]; [reflexivity |].
    unfold contains in H. cbn [existsb] in H.
    apply orb_false_iff in H. destruct H as [C H].
    cbn [to_crlf utf_8_sig]. destruct (N.eqb c 10) eqn:E.
    - apply N.eqb_eq in E. subst c. cbn [utf_8_sig N.eqb Pos.eqb BOM].
      rewrite !readlines_from_cons. cbn. now rewrite readlines_from_crlf.
    - cbn [utf_8_sig]. destruct (N.eqb c BOM).
      + now apply readlines_from_crlf.
      + rewrite !readlines_from_cons, E. rewrite N.eqb_sym in C. rewrite C.
        now apply readlines_from_crlf. }
  now rewrite E.
Qed.

(** *** Loading what was loaded *)

Lemma readlines_from_line body : forall cur rest,
  one_line body ->
  readlines_from cur (body ++ 10%N :: rest)
  = (rev cur ++ body ++ [10%N]) :: readlines_from [] rest.
Proof.
  induction body as [|c body IH]; intros cur rest [H10 H13].
  - cbn [app]. rewrite readlines_from_cons. cbn. reflexivity.
  - cbn [app]. rewrite readlines_from_cons.
    assert (E10 : N.eqb c 10 = false)
      by (apply N.eqb_neq; intros ->; apply H10; now left).
    assert (E13 : N.eqb c 13 = false)
      by (apply N.eqb_neq; intros ->; apply H13; now left).
    rewrite E10, E13, IH.
    + cbn [rev]. now rewrite <- app_assoc.
    + split; intros H; [apply H10 | apply H13]; now right.
Qed.

Lemma readlines_one_per_line cidrs :
  Forall one_line cidrs ->
  readlines (one_per_line cidrs) = List.map (fun c => c ++ [10%N]) cidrs.
Proof.
  unfold readlines. induction 1 as [|c rest O _ IH]; [reflexivity |].
  cbn [one_per_line flat_map List.map]. rewrite <- app_assoc. cbn [app].
  rewrite (readlines_from_line c [] _ O). cbn [rev app].
  f_equal. exact IH.
Qed.

(** The lines of a text: each is free of terminators but for a line
    feed at its end. *)
Lemma readlines_from_lines n : forall text cur,
  (length text <= n)%nat ->
  one_line cur ->
  Forall (fun line => exists body,
              one_line body /\ (line = body ++ [10%N] \/ line = body))
         (readlines_from cur text).
Proof.
  assert (R : forall cur, one_line cur -> one_line (rev cur)).
  { intros cur [A B]. split; intros H; apply in_rev in H; auto. }
  assert (E : one_line []) by (split; intros []).
  induction n as [|n IH]; intros text cur L O.
  - destruct text; [| cbn in L; lia]. cbn.
    destruct (is_empty cur); constructor; [| constructor].
    exists (rev cur). auto.
  - destruct text as [|c text].
    + cbn. destruct (is_empty cur); constructor; [| constructor].
      exists (rev cur). auto.
    + cbn [length] in L. rewrite readlines_from_cons.
      assert (H : Forall (fun line => exists body,
                     one_line body /\ (line = body ++ [10%N] \/ line = body))
                    (rev (10%N :: cur) :: readlines_from [] text)).
      { constructor; [| apply IH; [lia | exact E]].
        exists (rev cur). cbn [rev]. auto. }
      destruct (N.eqb c 10) eqn:E10; [exact H |].
      destruct (N.eqb c 13) eqn:E13.
      * destruct text as [|d text']; [exact H |].
        destruct (N.eqb d 10); [| exact H].
        constructor; [| apply IH; [cbn [length] in L; lia | exact E]].
        exists (rev cur). cbn [rev]. auto.
      * apply IH; [lia |]. destruct O as [A B].
        apply N.eqb_neq in E10, E13.
        split; intros [K|K]; auto.
Qed.

Lemma In_after_last sep x s : In x (after_last sep s) -> In x s.
Proof.
  induction s as [|c s IH]; [tauto |].
  cbn [after_last]. destruct (contains sep s).
  - intros H. right. auto.
  - destruct (N.eqb c sep); [intros H; now right | tauto].
Qed.

Lemma candidates_one_line text :
  Forall one_line (candidates text).
Proof.
  unfold candidates, candidates_of. apply Forall_forall. intros c H.
  apply filter_In in H. destruct H as [H _].
  apply in_map_iff in H. destruct H as (line & <- & H).
  apply filter_In in H. destruct H as [H _].
  pose proof (readlines_from_lines (length (utf_8_sig text))
                (utf_8_sig text) [] (le_n _)) as F.
  unfold readlines in H. rewrite Forall_forall in F.
  destruct (F (conj (fun x => x) (fun x => x)) line H)
    as (body & [B10 B13] & L).
  assert (S : strip line = strip body).
  { destruct L as [-> | ->]; [| reflexivity]. now apply strip_space_end. }
  unfold candidate. rewrite S.
  split; intros K; apply In_strip, In_after_last, In_strip in K; auto.
Qed.

(** X13: loading is idempotent: when the prefixes that a load returned are
    written one per line and loaded again, the same list comes back and
    nothing is reported (given that none starts with a comma or a byte
    order mark, as no address does). *)
Theorem read_cidrs_from_file_reload w filename out cidrs w' filename' :
  read_cidrs_from_file parse w filename = (out, Ok cidrs) ->
  Forall (fun c => startswith comma c = false /\ startswith BOM c = false)
         cidrs ->
  files w' filename' = Readable (one_per_line cidrs) None ->
  read_cidrs_from_file parse w' filename' = ([], Ok cidrs).
Proof.
  intros R C F.
  assert (S : Forall (fun c => c <> []
                               /\ strip c = c
                               /\ contains arrow c = false
                               /\ valid parse c = true) cidrs).
  { pose proof (read_cidrs_from_file_result w _ _ _ R) as T.
    destruct (files w filename) as [e|text failure]; subst cidrs;
      [constructor | apply valid_prefixes_shape]. }
  assert (O : Forall one_line cidrs).
  { apply read_cidrs_from_file_result in R.
    destruct (files w filename) as [e|text failure]; subst cidrs;
      [constructor |].
    unfold valid_prefixes. pose proof (candidates_one_line text) as A.
    rewrite Forall_forall in *. intros c H. apply filter_In in H.
    now apply A. }
  unfold read_cidrs_from_file. rewrite F, read_lines_spec. cbn [app].
  assert (U : utf_8_sig (one_per_line cidrs) = one_per_line cidrs).
  { destruct cidrs as [|c rest]; [reflexivity |].
    apply Forall_inv in C, S. destruct C as [_ B], S as [NE _].
    destruct c as [|x c]; [congruence |]. cbn in B |- *. now rewrite B. }
  rewrite U, (readlines_one_per_line _ O).
  assert (K : candidates_of (List.map (fun c => c ++ [10%N]) cidrs) = cidrs).
  { clear R F U O. induction cidrs as [|c rest IH]; [reflexivity |].
    apply Forall_cons_iff in C, S.
    destruct C as [[Cc _] C], S as [(NE & St & Ar & _) S].
    cbn [List.map]. rewrite candidates_of_cons, (IH C S).
    unfold candidates_of, is_data_line, candidate. cbn [filter List.map].
    rewrite (strip_space_end c 10%N eq_refl), St, Cc.
    destruct c as [|x c]; [congruence |].
    cbn [is_empty negb andb List.map].
    rewrite (strip_space_end (x :: c) 10%N eq_refl), St.
    rewrite (after_last_no_sep _ _ Ar), St. reflexivity. }
  rewrite K.
  assert (V : Forall (fun c => valid parse c = true) cidrs)
    by (eapply Forall_impl; [| exact S]; cbn; tauto).
  clear - V. f_equal.
  - induction V as [|c rest Vc _ IH]; [reflexivity |].
    cbn [filter]. now rewrite Vc.
  - f_equal. induction V as [|c rest Vc _ IH]; [reflexivity |].
    cbn [filter]. rewrite Vc. now f_equal.
Qed.

(** *** The report *)

Section Report.

Variable w : world.

Lemma write_covered_rows_with_covering log_filename pairs :
  write_covered_rows parse log_filename (with_covering pairs)
  = (List.map (fun p => LogWrite log_filename
                          (LogCoveredRow
                             (fst p) (get_ip_range parse (fst p))
                             (snd p) (get_ip_range parse (snd p)))) pairs,
     Ok tt).
Proof.
  induction pairs as [|[er_route ms_route] rest IH]; [reflexivity |].
  cbn [with_covering List.map write_covered_rows fst snd].
  fold (with_covering rest). rewrite IH. reflexivity.
Qed.

(** A complete report, event by event. *)
Lemma write_log_file_report ms_routes er_route er_routes pairs
      uncovered_routes ms_file er_file :
  write_log_file parse w ms_routes (er_route :: er_routes)
                 (with_covering pairs) uncovered_routes ms_file er_file
  = (List.map (LogWrite (log_name w))
              (report_items parse w ms_routes (er_route :: er_routes) pairs
                            uncovered_routes ms_file er_file),
     Ok (log_name w)).
Proof.
  unfold write_log_file, true_div, report_items, percentage_text.
  fold (log_name w).
  replace (Z.of_nat (length (er_route :: er_routes)) =? 0) with false
    by (symmetry; apply Z.eqb_neq; cbn [length]; lia).
  assert (L : length (with_covering pairs) = length pairs)
    by apply length_map.
  rewrite !L. clear L.
  cbn [bind emit lift ret app List.map].
  destruct pairs as [|p pairs].
  - cbn [with_covering List.map is_nil negb bind ret app].
    destruct uncovered_routes; reflexivity.
  - replace (is_nil (with_covering (p :: pairs))) with false by reflexivity.
    cbn [negb bind emit app].
    rewrite write_covered_rows_with_covering.
    cbn [bind emit ret app List.map].
    rewrite !map_app, !map_map. cbn [List.map].
    destruct uncovered_routes; cbn [is_nil negb bind emit ret app List.map];
      rewrite <- ?app_assoc; reflexivity.
Qed.

(** X14: [write_log_file] completes exactly when there is at least one ER
    route (each covered route having its covering prefix); it then returns
    the name built around the time stamp, and every event is a write to
    that file: header, totals, percentage, the covered table when there is
    a covered route, the uncovered table or the note that all are covered,
    the two input lists, and the end. *)
Theorem write_log_file_completes ms_routes er_routes pairs uncovered_routes
        ms_file er_file :
  let run := write_log_file parse w ms_routes er_routes
                            (with_covering pairs) uncovered_routes
                            ms_file er_file in
  (er_routes <> [] <-> snd run = Ok (log_name w))
  /\ (er_routes <> [] ->
      fst run
      = List.map (LogWrite (log_name w))
                 (report_items parse w ms_routes er_routes pairs
                               uncovered_routes ms_file er_file)).
Proof.
  destruct er_routes as [|er_route er_routes].
  - cbn zeta. split; [| congruence].
    split; [congruence |]. unfold write_log_file, true_div. cbn. discriminate.
  - cbn zeta. rewrite write_log_file_report. cbn [fst snd].
    split; [split; [reflexivity | discriminate] | reflexivity].
Qed.

End Report.

(** *** A complete run *)

Section Run.

Variable version_info : nat * nat.
Variable w : world.

Lemma covered_by_true_Some target_network target covering_networks r :
  covered_by parse version_info target_network target covering_networks
  = Ok (true, r) ->
  exists c, r = Some c.
Proof.
  induction covering_networks as [|c rest IH]; cbn [covered_by];
    [discriminate |].
  destruct (covers parse version_info target_network target c)
    as [[|]|[]]; try discriminate; try exact IH.
  intros [= <-]. eauto.
Qed.

Lemma partition_routes_with_covering ms_routes er_routes covered uncovered :
  partition_routes parse version_info ms_routes er_routes [] []
  = Ok (covered, uncovered) ->
  exists pairs, covered = with_covering pairs.
Proof.
  intros H. destruct (partition_routes_acc _ _ _ _ _ _ _ H)
    as (pairs & -> & _ & _ & F).
  cbn [app]. clear H. induction F as [|[e r] rest C _ IH].
  - now exists [].
  - destruct IH as (pairs & ->). cbn [fst snd] in C.
    unfold is_network_covered in C.
    destruct (ip_network parse e) as [target|]; [| discriminate].
    cbn [rbind] in C. apply covered_by_true_Some in C.
    destruct C as (c & ->). now exists ((e, c) :: pairs).
Qed.

Lemma print_covered_with_covering pairs :
  print_covered parse (with_covering pairs)
  = (List.map (fun p => Stdout (CoveredPair
                                  (fst p) (get_ip_range parse (fst p))
                                  (Some (snd p))
                                  (get_ip_range parse (snd p)))) pairs,
     Ok tt).
Proof.
  induction pairs as [|[e m] rest IH]; [reflexivity |].
  cbn [with_covering List.map print_covered fst snd].
  fold (with_covering rest). rewrite IH. reflexivity.
Qed.

Lemma firstn_with_covering n pairs :
  firstn n (with_covering pairs) = with_covering (firstn n pairs).
Proof. unfold with_covering. now rewrite firstn_map. Qed.

(** A complete run, event by event. *)
Lemma main_trace out_ms ms_routes out_er er_route er_routes pairs
      uncovered_routes :
  version_lt version_info (3, 6)%nat = false ->
  read_cidrs_from_file parse w ms_file = (out_ms, Ok ms_routes) ->
  read_cidrs_from_file parse w er_file
  = (out_er, Ok (er_route :: er_routes)) ->
  partition_routes parse version_info ms_routes (er_route :: er_routes) [] []
  = Ok (with_covering pairs, uncovered_routes) ->
  main parse version_info w
  = (List.map Stdout
       [PythonVersion;
        if has_subnet_of version_info then UsingBuiltinSubnetOf
        else UsingCompatibility;
        Separator]
     ++ out_ms ++ out_er
     ++ List.map Stdout
          [MsRoutesLoaded (length ms_routes);
           ErRoutesLoaded (length (er_route :: er_routes));
           Separator]
     ++ List.map (LogWrite (log_name w))
          (report_items parse w ms_routes (er_route :: er_routes) pairs
                        uncovered_routes ms_file er_file)
     ++ List.map Stdout
          (console_summary parse w (er_route :: er_routes) pairs
                           uncovered_routes),
     Ok tt).
Proof.
  intros V MS ER P. unfold main. rewrite V, MS, ER.
  cbn [bind ret print_each emit app lift]. rewrite P.
  rewrite write_log_file_report. cbn [bind ret emit app List.map].
  assert (L : length (with_covering pairs) = length pairs)
    by apply length_map.
  rewrite !L, print_each_spec, firstn_with_covering,
    print_covered_with_covering.
  unfold console_summary.
  set (items := List.map (LogWrite (log_name w)) _).
  destruct uncovered_routes as [|u us]; destruct pairs as [|p ps];
    cbn [is_nil negb with_covering List.map bind ret emit app];
    try destruct (5 <? length (p :: ps))%nat;
    cbn [bind ret emit app List.map];
    repeat (progress (cbn [List.map app];
                      rewrite ?map_app, ?map_map, ?app_nil_r, <- ?app_assoc));
    reflexivity.
Qed.

Lemma log_items_prints (ls : list line) :
  log_items (List.map Stdout ls) = [].
Proof. induction ls; [reflexivity | assumption]. Qed.

Lemma log_items_writes log_filename items :
  log_items (List.map (LogWrite log_filename) items) = items.
Proof.
  induction items as [|i items IH]; [reflexivity |].
  cbn. unfold log_items in IH. now rewrite IH.
Qed.

Lemma log_items_loader filename out r :
  read_cidrs_from_file parse w filename = (out, r) -> log_items out = [].
Proof.
  intros R. pose proof (read_cidrs_from_file_prints parse w _ _ _ R) as P.
  clear R. induction out as [|ev out IH]; [reflexivity |].
  destruct (P ev (or_introl eq_refl)) as (l & ->). cbn.
  apply IH. intros ev H. apply P. now right.
Qed.

Lemma log_items_app t t' : log_items (t ++ t') = log_items t ++ log_items t'.
Proof. apply flat_map_app. Qed.

(** X15: a run on two files that load, with at least one ER route and no
    comparison across address families, ends normally with status 0; it
    writes one complete report, every covered route with its covering
    prefix, the two counts add up to the number of ER routes, and the
    console ends with the summary. *)
Theorem main_completes out_ms ms_routes out_er er_route er_routes
        covered uncovered :
  version_lt version_info (3, 6)%nat = false ->
  read_cidrs_from_file parse w ms_file = (out_ms, Ok ms_routes) ->
  read_cidrs_from_file parse w er_file
  = (out_er, Ok (er_route :: er_routes)) ->
  partition_routes parse version_info ms_routes (er_route :: er_routes) [] []
  = Ok (covered, uncovered) ->
  snd (main parse version_info w) = Ok tt
  /\ exit_status (snd (main parse version_info w)) = 0
  /\ exists pairs,
       covered = with_covering pairs
       /\ (length pairs + length uncovered
           = length (er_route :: er_routes))%nat
       /\ log_items (fst (main parse version_info w))
          = report_items parse w ms_routes (er_route :: er_routes) pairs
                         uncovered ms_file er_file
       /\ exists before,
            fst (main parse version_info w)
            = before
              ++ List.map Stdout
                   (console_summary parse w (er_route :: er_routes) pairs
                                    uncovered).
Proof.
  intros V MS ER P.
  destruct (partition_routes_with_covering _ _ _ _ P) as (pairs & ->).
  rewrite (main_trace _ _ _ _ _ _ _ V MS ER P). cbn [fst snd].
  split; [reflexivity |]. split; [reflexivity |].
  exists pairs. split; [reflexivity |]. split; [| split].
  - destruct (partition_routes_acc _ _ _ _ _ _ _ P)
      as (pairs' & E & M & -> & _).
    cbn [app] in E. subst pairs'.
    assert (L : length (with_covering pairs) = length pairs)
      by apply length_map.
    rewrite <- L, <- (length_map fst (with_covering pairs)), M.
    apply filter_lengths.
  - rewrite !log_items_app, !log_items_prints, log_items_writes.
    rewrite (log_items_loader _ _ _ MS), (log_items_loader _ _ _ ER).
    cbn [app]. now rewrite app_nil_r.
  - eexists. rewrite !app_assoc. reflexivity.
Qed.

(** *** How a run can end *)

Lemma covers_raises target_network target covering_network e :
  covers parse version_info target_network target covering_network = Raise e ->
  e = ValueError \/ e = TypeError.
Proof.
  unfold covers, ip_network.
  destruct (parse covering_network) as [n|] eqn:Pc; cbn [rbind];
    [| intros [= <-]; now left].
  assert (L : forall a b e', address_lt a b = Raise e' -> e' = TypeError).
  { intros a b e'. unfold address_lt.
    destruct (negb _); [now intros [= <-] |].
    destruct (negb _); discriminate. }
  assert (G : forall a b e', address_ge a b = Raise e' -> e' = TypeError).
  { intros a b e'. unfold address_ge.
    destruct (address_lt a b) eqn:A; cbn; [discriminate |].
    intros [= <-]. eauto. }
  assert (LE : forall a b e', address_le a b = Raise e' -> e' = TypeError).
  { intros a b e'. unfold address_le.
    destruct (address_lt a b) eqn:A; cbn; [discriminate |].
    intros [= <-]. eauto. }
  destruct (has_subnet_of version_info).
  - unfold subnet_of. destruct (negb _); cbn [rbind];
      [intros [= <-]; now right |].
    destruct (address_le _ _) as [[|]|e1] eqn:A; cbn [rbind].
    + destruct (address_ge _ _) as [b|e2] eqn:B; cbn [rbind];
        [discriminate |].
      intros [= <-]. right. eauto.
    + discriminate.
    + intros [= <-]. right. eauto.
  - unfold is_subnet_of, ip_network. rewrite Pc.
    destruct (parse target_network) as [t|]; cbn [rbind except_ValueError];
      [| discriminate].
    destruct (address_ge _ _) as [[|]|e1] eqn:A; cbn [rbind].
    + destruct (address_le _ _) as [b|e2] eqn:B;
        cbn [rbind except_ValueError]; [discriminate |].
      pose proof (LE _ _ _ B). subst e2. cbn. intros [= <-]. now right.
    + discriminate.
    + pose proof (G _ _ _ A). subst e1. cbn. intros [= <-]. now right.
Qed.

Lemma partition_routes_raises ms_routes er_routes :
  Forall (fun c => valid parse c = true) er_routes ->
  forall covered uncovered e,
    partition_routes parse version_info ms_routes er_routes covered uncovered
    = Raise e ->
    e = TypeError.
Proof.
  induction 1 as [|er_route rest V _ IH]; intros covered uncovered e;
    [discriminate |].
  cbn [partition_routes]. unfold is_network_covered, ip_network.
  unfold valid in V. destruct (parse er_route) as [n|]; [| discriminate].
  cbn [rbind].
  destruct (covered_by parse version_info er_route n ms_routes)
    as [[[|] c]|e'] eqn:C; cbn [rbind]; try apply IH.
  intros [= <-]. clear IH. revert C.
  induction ms_routes as [|m ms IHm]; cbn [covered_by]; [discriminate |].
  destruct (covers parse version_info er_route n m) as [[|]|e0] eqn:K;
    try discriminate; try exact IHm.
  destruct (covers_raises _ _ _ _ K) as [-> | ->]; [exact IHm |].
  now intros [= <-].
Qed.

(** X16: how a run on two files that load ends: with no ER route, in the
    uncaught [ZeroDivisionError] of the report; otherwise normally, unless
    the partition compares across address families, which ends it with
    [TypeError].  No other end is possible. *)
Theorem main_outcome out_ms ms_routes out_er er_routes :
  version_lt version_info (3, 6)%nat = false ->
  read_cidrs_from_file parse w ms_file = (out_ms, Ok ms_routes) ->
  read_cidrs_from_file parse w er_file = (out_er, Ok er_routes) ->
  snd (main parse version_info w)
  = match er_routes with
    | [] => Raise ZeroDivisionError
    | _ =>
        match partition_routes parse version_info ms_routes er_routes
                               [] [] with
        | Ok _ => Ok tt
        | Raise _ => Raise TypeError
        end
    end.
Proof.
  intros V MS ER.
  destruct er_routes as [|er_route er_routes].
  - unfold main. rewrite V, MS, ER. cbn. reflexivity.
  - destruct (partition_routes parse version_info ms_routes
                               (er_route :: er_routes) [] [])
      as [[covered uncovered]|e] eqn:P.
    + destruct (partition_routes_with_covering _ _ _ _ P) as (pairs & ->).
      now rewrite (main_trace _ _ _ _ _ _ _ V MS ER P).
    + pose proof (read_cidrs_from_file_valid parse w _ _ _ ER) as Valid.
      pose proof (partition_routes_raises _ _ Valid _ _ _ P). subst e.
      unfold main. rewrite V, MS, ER.
      cbn [bind ret print_each emit app lift]. rewrite P. reflexivity.
Qed.

End Run.

End Containment.

End CidrCoverageMore.

(** ** More about the Elastiflow tool *)

Module ElasticFlowMore.
Import PyFacts StrFacts ElasticFlow ElasticFlowSpec ElasticFlowMoreSpec.
Import ElasticFlowFacts.

(** *** Loading the subnets *)

Section Script.

Variable cfg : config.
Variable w : world.

(** X17: [load_subnets] opens the file and returns, for every row that
    has a field, its first field without the white space around it, in the
    order of the rows; rows without a field are skipped; every subnet it
    returns is stripped, and there are at most as many as rows. *)
Theorem load_subnets_rows path rows :
  read_csv w path = Ok rows ->
  exists subnets,
    load_subnets w path = ([CsvOpened path], Ok subnets)
    /\ subnets
       = List.map (fun row => strip (hd [] row))
                  (filter (fun row => match row with
                                      | [] => false
                                      | _ :: _ => true
                                      end) rows)
    /\ Forall (fun subnet => strip subnet = subnet) subnets
    /\ (length subnets <= length rows)%nat.
Proof.
  intros R. unfold load_subnets. rewrite R. cbn [bind emit lift ret app].
  eexists. split; [reflexivity |].
  assert (E : flat_map (fun row : list str => match row with
                                 | [] => []
                                 | field :: _ => [strip field]
                                 end) rows
              = List.map (fun row => strip (hd [] row))
                         (filter (fun row => match row with
                                             | [] => false
                                             | _ :: _ => true
                                             end) rows)).
  { clear R. induction rows as [|[|field row] rows IH]; cbn;
      [reflexivity | exact IH | now rewrite IH]. }
  rewrite E. split; [reflexivity |]. split.
  - apply Forall_forall. intros subnet H. apply in_map_iff in H.
    destruct H as (row & <- & _). apply strip_idempotent.
  - rewrite length_map. clear. induction rows as [|row rows IH]; cbn; [lia |].
    destruct row; cbn; lia.
Qed.

(** *** The confirmation *)

Lemma lower_char c x :
  (97 <= x <= 122)%N ->
  (if ((65 <=? c) && (c <=? 90))%N then (c + 32)%N else c) = x ->
  c = x \/ c = (x - 32)%N.
Proof.
  intros Hx. destruct ((65 <=? c) && (c <=? 90))%N eqn:U.
  - intros <-. right. lia.
  - intros ->. now left.
Qed.

Lemma lower_y s : lower s = lit "y" -> s = lit "y" \/ s = lit "Y".
Proof.
  destruct s as [|c [|d s]]; try discriminate.
  cbn. intros [= H]. apply lower_char in H; [| lia].
  destruct H as [-> | ->]; auto.
Qed.

Lemma lower_yes s : lower s = lit "yes" -> In s yes_answers.
Proof.
  destruct s as [|a [|b [|c [|d s]]]]; try discriminate.
  cbn. intros [= Ha Hb Hc].
  apply lower_char in Ha; [| lia]. apply lower_char in Hb; [| lia].
  apply lower_char in Hc; [| lia].
  destruct Ha as [-> | ->], Hb as [-> | ->], Hc as [-> | ->];
    cbn; tauto.
Qed.

(** X18: [confirm] asks once, with [[y/N]: ] after the prompt, and answers
    yes exactly when the line typed is, once stripped, [y] or [yes] in any
    mix of cases; the end of the input is a no. *)
Theorem confirm_answers prompt :
  fst (confirm w prompt) = [InputPrompt (prompt ++ lit " [y/N]: ")]
  /\ (snd (confirm w prompt) = Ok true
      <-> exists line,
          stdin_input w (prompt ++ lit " [y/N]: ") = Ok line
          /\ In (strip line) yes_answers)
  /\ (stdin_input w (prompt ++ lit " [y/N]: ") = Raise EOFError ->
      snd (confirm w prompt) = Ok false).
Proof.
  split; [apply confirm_trace |].
  unfold confirm. cbn [bind emit app].
  destruct (stdin_input w (prompt ++ lit " [y/N]: ")) as [line|e].
  - split; [| discriminate]. cbn [snd ret]. split.
    + intros [= H]. exists line. split; [reflexivity |].
      apply orb_true_iff in H. destruct H as [H|H]; apply str_eqb_eq in H.
      * apply lower_y in H. destruct H as [-> | ->]; cbn; tauto.
      * now apply lower_yes.
    + intros (line' & [= <-] & H). f_equal.
      unfold yes_answers in H. cbn [In] in H.
      repeat (destruct H as [<- | H]; [reflexivity |]). destruct H.
  - split.
    + split.
      * destruct e; discriminate.
      * intros (line & [=] & _).
    + intros [= ->]. reflexivity.
Qed.

(** *** The payload for a day count that is not positive *)

Lemma str_of_int_negative n :
  n < 0 ->
  exists D,
    str_of_int n = 45%N :: D
    /\ forallb isdigit D = true /\ int_of_digits D = - n.
Proof.
  intros H. unfold str_of_int.
  replace (n <? 0) with true by (symmetry; apply Z.ltb_lt; lia).
  eexists. split; [reflexivity |].
  destruct (digits_of_pos_spec (S (Z.to_nat (Z.log2 (- n)))) (- n) [])
    as [D I].
  - split; [lia |].
    rewrite Nat2Z.inj_succ, Z2Nat.id by apply Z.log2_nonneg.
    apply Z.lt_le_trans with (2 ^ Z.succ (Z.log2 (- n))).
    + apply Z.log2_spec. lia.
    + apply Z.pow_le_mono_l. lia.
  - reflexivity.
  - split; [exact D |]. rewrite I. cbn. lia.
Qed.

(** X19: [build_payload] does not check the day count: zero gives the
    lower bound [now-0d/d], and a negative count is written with its
    sign, giving [now--Nd/d] with [N] the decimal text of its absolute
    value. *)
Theorem build_payload_days_unchecked subnets days agg_size :
  days <= 0 ->
  exists N,
    time_range (build_payload cfg subnets days agg_size)
    = Some (JDict [(lit "gte", JStr (lit "now-" ++ N ++ lit "d/d"));
                   (lit "lte", JStr (lit "now/d"))])
    /\ (days = 0 -> N = lit "0")
    /\ (days < 0 ->
        exists D, N = lit "-" ++ D
                  /\ forallb isdigit D = true
                  /\ int_of_digits D = - days).
Proof.
  intros H. exists (str_of_int days). split; [reflexivity |]. split.
  - intros ->. reflexivity.
  - intros L. destruct (str_of_int_negative days L) as (D & E & F & I).
    exists D. rewrite E. auto.
Qed.

(** *** What follows the request *)

Lemma bucket_rows_dicts items :
  bucket_rows (List.map JDict items) = (List.map bucket_row items, None).
Proof.
  induction items as [|item items IH]; [reflexivity |].
  cbn [List.map bucket_rows]. rewrite IH. unfold dict_get, bucket_row.
  destruct (find _ item) as [[? ?]|]; destruct (find _ item) as [[? ?]|];
    reflexivity.
Qed.

(** X20: when the buckets are a list of objects and the output file can
    be written, [export] writes the header and one row per bucket, in
    order, with the value of [key] and of [doc_count], [None] standing for
    a missing one; then it logs the number of buckets and ends normally. *)
Theorem export_rows a items :
  write_csv w (output a) (csv_header :: List.map bucket_row items) = Ok tt ->
  export w a (JList (List.map JDict items))
  = ([CsvWritten (output a) (csv_header :: List.map bucket_row items);
      LoggingInfo (Success (length items) (output a))],
     Ok tt).
Proof.
  intros W. unfold export. cbn [iterate]. rewrite bucket_rows_dicts.
  fold csv_header. cbn [bind emit app]. rewrite W. cbn [bind emit app].
  now rewrite length_map.
Qed.

Lemma bucket_rows_stop items bad rest :
  (forall fields, bad <> JDict fields) ->
  bucket_rows (List.map JDict items ++ bad :: rest)
  = (List.map bucket_row items, Some AttributeError).
Proof.
  intros B. induction items as [|item items IH].
  - cbn [List.map app bucket_rows]. unfold dict_get.
    destruct bad; try reflexivity. now destruct (B items).
  - cbn [List.map app bucket_rows]. rewrite IH. unfold dict_get, bucket_row.
    destruct (find _ item) as [[? ?]|]; destruct (find _ item) as [[? ?]|];
      reflexivity.
Qed.

(** X21: a bucket that is not an object ends [export] with an uncaught
    [AttributeError]; the header and the rows of the buckets before it
    have been written by then, and no success is logged. *)
Theorem export_stops_at_bad_bucket a items bad rest :
  (forall fields, bad <> JDict fields) ->
  write_csv w (output a) (csv_header :: List.map bucket_row items) = Ok tt ->
  export w a (JList (List.map JDict items ++ bad :: rest))
  = ([CsvWritten (output a) (csv_header :: List.map bucket_row items)],
     Raise AttributeError).
Proof.
  intros B W. unfold export. cbn [iterate].
  rewrite (bucket_rows_stop _ _ _ B). fold csv_header.
  cbn [bind emit app]. rewrite W. reflexivity.
Qed.

(** *** The request *)

Local Arguments query : simpl never.
Local Arguments build_payload : simpl never.
Local Arguments wildcard_prompt : simpl never.
Local Arguments the_request : simpl never.
Local Arguments confirm : simpl never.

(** A run either stops before the request, having posted and written
    nothing, or goes through [query] with the credentials, the loaded
    subnets and, for a wildcard index, the permissions it needs. *)
Lemma main_run a :
  let t := fst (main cfg w a) in
  let r := snd (main cfg w a) in
  let prompts :=
    if negb (contains star (index a) && negb (allow_wildcard a))
       && truthy (username a) && negb (truthy (password a))
    then 1%nat else 0%nat in
  (posted t = [] /\ written t = [] /\ password_prompts t = prompts
   /\ (asked t = true ->
       contains star (index a) = true /\ allow_wildcard a = true
       /\ confirm_flag a = false /\ dry_run a = false
       /\ opened t = [input a])
   /\ ((r = Raise (SystemExit 2)
        /\ opened t = [] /\ printed t = [] /\ asked t = false)
       \/ (r = Raise (SystemExit 0)
           /\ opened t = [input a] /\ printed t = [] /\ asked t = true
           /\ dry_run a = false)
       \/ (r = Ok tt
           /\ opened t = [input a] /\ asked t = false
           /\ dry_run a = true
           /\ exists subnets,
               snd (load_subnets w (input a)) = Ok subnets
               /\ printed t
                  = [DryRunEsUrl (es_url a); DryRunIndex (index a);
                     JsonDumps (build_payload cfg subnets (days a) (size a))
                               2])
       \/ (exists e,
              r = Raise e
              /\ (getpass w (lit "Elasticsearch password: ") = Raise e
                  \/ read_csv w (input a) = Raise e
                  \/ snd (confirm w (wildcard_prompt a)) = Raise e))))
  \/ exists pre u p subnets,
      let q := query w a u p (build_payload cfg subnets (days a) (size a)) in
      main cfg w a = (pre ++ fst q, snd q)
      /\ posted pre = [] /\ written pre = [] /\ printed pre = []
      /\ opened pre = [input a]
      /\ password_prompts pre = prompts
      /\ asked pre = contains star (index a) && negb (confirm_flag a)
      /\ u <> [] /\ p <> []
      /\ username a = Some u
      /\ (password a = Some p
          \/ getpass w (lit "Elasticsearch password: ") = Ok p)
      /\ path_exists w (input a) = true
      /\ snd (load_subnets w (input a)) = Ok subnets
      /\ dry_run a = false
      /\ (contains star (index a) = true ->
          allow_wildcard a = true
          /\ (confirm_flag a = true
              \/ snd (confirm w (wildcard_prompt a)) = Ok true)).
Proof.
  cbn zeta. unfold main, load_subnets.
  destruct (contains star (index a)) eqn:S;
    destruct (allow_wildcard a) eqn:A; cbn [andb negb];
    cbn; try stops_early.
  all: credentials w a; try stops_early.
  all: destruct (path_exists w (input a)) eqn:PE; cbn; try stops_early.
  all: destruct (read_csv w (input a)) as [rows|e1] eqn:R; cbn;
    try stops_early.
  all: destruct (dry_run a) eqn:D; cbn; try stops_early.
  all: destruct (confirm_flag a) eqn:C; cbn [andb negb]; cbn.
  all: try (pose proof (confirm_trace w (wildcard_prompt a)) as T;
            destruct (confirm w (wildcard_prompt a)) as [t [[|]|e']] eqn:K;
            cbn in T; subst t; cbn; try stops_early).
  all: right.
  all: match goal with
       | |- context [query w ?a' ?u ?p (build_payload cfg ?sn _ _)] =>
           destruct (query w a' u p (build_payload cfg sn (days a') (size a')))
             as [tq rq] eqn:Q;
           match goal with
           | |- context [(?L, rq) = _] =>
               let pr := prefix_of L tq in exists pr, u, p, sn
           end;
           cbn zeta; rewrite Q; cbn [fst snd]
       end.
  all: split; [reflexivity |].
  all: repeat split; try reflexivity; try discriminate.
  all: try (left; reflexivity); try (right; reflexivity).
Qed.

Lemma follows_request_quiet t :
  forallb follows_request t = true ->
  posted t = [] /\ printed t = [] /\ opened t = [] /\ asked t = false
  /\ password_prompts t = 0%nat.
Proof.
  unfold password_prompts.
  induction t as [|e t IH]; [now repeat split |].
  cbn [forallb]. intros [E T]%andb_true_iff.
  destruct (IH T) as (P & Q & O & K & G).
  destruct e; try discriminate E; cbn; now repeat split.
Qed.

Lemma export_follows a buckets :
  forallb follows_request (fst (export w a buckets)) = true.
Proof.
  unfold export. destruct (iterate buckets) as [items|e].
  - destruct (bucket_rows items) as [rows [stopped|]];
      destruct (write_csv w (output a) _) as [[]|[]]; reflexivity.
  - destruct (write_csv w (output a) _) as [[]|[]]; reflexivity.
Qed.

Local Arguments export : simpl never.

(** [query] announces and posts its request, and then only logs and
    writes. *)
Lemma query_trace a u p payload :
  exists t,
    fst (query w a u p payload) = request_events a u p payload ++ t
    /\ forallb follows_request t = true.
Proof.
  unfold query, request_events. fold (the_request a u p payload).
  pose proof (export_follows a) as X.
  destruct (insecure a); cbn;
    (destruct (requests_post w _) as [[[] [data|[]]]|[]]; cbn;
     try (eexists; split; reflexivity));
    (destruct (dict_get data _ _) as [aggregations|]; cbn;
     [ destruct (dict_get aggregations _ _) as [unique|]; cbn;
       [ destruct (dict_get unique _ _) as [buckets|]; cbn |] |];
     try (eexists; split; reflexivity));
    specialize (X buckets);
    destruct (export w a buckets) as [tx rx]; cbn in *;
    (eexists; split; [reflexivity | exact X]).
Qed.

Lemma posted_app t1 t2 : posted (t1 ++ t2) = posted t1 ++ posted t2.
Proof. apply flat_map_app. Qed.

Lemma written_app t1 t2 : written (t1 ++ t2) = written t1 ++ written t2.
Proof. apply flat_map_app. Qed.

Lemma printed_app t1 t2 : printed (t1 ++ t2) = printed t1 ++ printed t2.
Proof. apply flat_map_app. Qed.

Lemma opened_app t1 t2 : opened (t1 ++ t2) = opened t1 ++ opened t2.
Proof. apply flat_map_app. Qed.

Lemma asked_app t1 t2 : asked (t1 ++ t2) = asked t1 || asked t2.
Proof. apply existsb_app. Qed.

Lemma password_prompts_app t1 t2 :
  password_prompts (t1 ++ t2)
  = (password_prompts t1 + password_prompts t2)%nat.
Proof. unfold password_prompts. now rewrite filter_app, length_app. Qed.

Lemma request_events_quiet a u p payload :
  posted (request_events a u p payload) = [the_request a u p payload]
  /\ written (request_events a u p payload) = []
  /\ printed (request_events a u p payload) = []
  /\ opened (request_events a u p payload) = []
  /\ asked (request_events a u p payload) = false
  /\ password_prompts (request_events a u p payload) = 0%nat.
Proof. unfold request_events. destruct (insecure a); now repeat split. Qed.

(** All that [query] adds to what a run shows of itself is its one
    request. *)
Lemma query_quiet a u p payload :
  posted (fst (query w a u p payload)) = [the_request a u p payload]
  /\ printed (fst (query w a u p payload)) = []
  /\ opened (fst (query w a u p payload)) = []
  /\ asked (fst (query w a u p payload)) = false
  /\ password_prompts (fst (query w a u p payload)) = 0%nat.
Proof.
  destruct (query_trace a u p payload) as (t & -> & F).
  destruct (follows_request_quiet t F) as (P & Q & O & K & G).
  destruct (request_events_quiet a u p payload) as (P' & _ & Q' & O' & K' & G').
  rewrite posted_app, printed_app, opened_app, asked_app,
    password_prompts_app, P, Q, O, K, G, P', Q', O', K', G'.
  now repeat split.
Qed.

(** *** The address of the request *)

Lemma lstrip_char_spec c s :
  exists k,
    s = repeat c k ++ lstrip_char c s
    /\ forall t, lstrip_char c s <> c :: t.
Proof.
  induction s as [|d s (k & E & N)].
  - exists 0%nat. split; [reflexivity | discriminate].
  - cbn [lstrip_char]. destruct (N.eqb_spec d c) as [->|D].
    + exists (S k). split; [cbn; now rewrite <- E | exact N].
    + exists 0%nat. split; [reflexivity | congruence].
Qed.

Lemma rstrip_char_spec c s :
  exists k,
    s = rstrip_char c s ++ repeat c k
    /\ forall t, rstrip_char c s <> t ++ [c].
Proof.
  unfold rstrip_char.
  destruct (lstrip_char_spec c (rev s)) as (k & E & N).
  exists k. split.
  - rewrite <- (rev_involutive s) at 1. rewrite E at 1.
    rewrite rev_app_distr. f_equal.
    clear. induction k as [|k IH]; [reflexivity |].
    cbn [repeat rev]. rewrite IH. clear.
    induction k as [|k IH]; [reflexivity |]. cbn. now rewrite IH.
  - intros t H. apply (N (rev t)).
    rewrite <- (rev_involutive (lstrip_char c (rev s))), H, rev_app_distr.
    reflexivity.
Qed.

(** X22: the request goes to the base address without its trailing
    slashes, followed by one slash, the index and [/_search]: however many
    slashes end [--es-url], the path starts with exactly one. *)
Theorem query_url a u p payload :
  exists base k,
    es_url a = base ++ repeat 47%N k
    /\ (forall t, base <> t ++ [47%N])
    /\ List.map url (posted (fst (query w a u p payload)))
       = [base ++ lit "/" ++ index a ++ lit "/_search"].
Proof.
  destruct (rstrip_char_spec 47 (es_url a)) as (k & E & N).
  exists (rstrip_char 47 (es_url a)), k.
  destruct (query_quiet a u p payload) as (-> & _).
  now repeat split.
Qed.

(** *** What the run needs before its request *)

(** X23: a run issues at most one request, and only after all its
    checks: a user name and a password that are not empty, an input file
    that exists and loads, no [--dry-run], and for an index with a
    wildcard both [--allow-wildcard] and either [--confirm] or a yes at
    the question.  The request carries these credentials and the payload
    of the loaded subnets. *)
Theorem main_request_guarded a r :
  In r (posted (fst (main cfg w a))) ->
  exists u p subnets,
    posted (fst (main cfg w a)) = [r]
    /\ r = the_request a u p (build_payload cfg subnets (days a) (size a))
    /\ u <> [] /\ p <> []
    /\ username a = Some u
    /\ (password a = Some p
        \/ getpass w (lit "Elasticsearch password: ") = Ok p)
    /\ path_exists w (input a) = true
    /\ snd (load_subnets w (input a)) = Ok subnets
    /\ dry_run a = false
    /\ (contains star (index a) = true ->
        allow_wildcard a = true
        /\ (confirm_flag a = true
            \/ snd (confirm w (wildcard_prompt a)) = Ok true)).
Proof.
  intros H.
  destruct (main_run a)
    as [(P & _) | (pre & u & p & sn & E & P & _ & _ & _ & _ & _ & U & V
                   & UN & PW & PE & L & D & S)];
    cbn zeta in *.
  - rewrite P in H. destruct H.
  - destruct (query_quiet a u p (build_payload cfg sn (days a) (size a)))
      as (Q & _).
    rewrite E in H |- *. cbn [fst] in H |- *.
    rewrite posted_app, P, Q in H |- *. cbn [app] in H |- *.
    destruct H as [<-|[]].
    exists u, p, sn. repeat split; try assumption; apply S; assumption.
Qed.

(** *** The statuses of a run *)

Lemma dict_get_raises d key default e :
  dict_get d key default = Raise e -> e = AttributeError.
Proof.
  unfold dict_get. destruct d; try (intros [= <-]; reflexivity).
  destruct (find _ items) as [[? ?]|]; discriminate.
Qed.

Lemma bucket_rows_stopped items e :
  snd (bucket_rows items) = Some e -> e = AttributeError.
Proof.
  induction items as [|bucket rest IH]; cbn [bucket_rows]; [discriminate |].
  destruct (dict_get bucket (lit "key") JNull) as [k|e1] eqn:K.
  - destruct (dict_get bucket (lit "doc_count") JNull) as [n|e2] eqn:C.
    + destruct (bucket_rows rest) as [rows stopped]. exact IH.
    + intros [= <-]. exact (dict_get_raises _ _ _ _ C).
  - intros [= <-]. exact (dict_get_raises _ _ _ _ K).
Qed.

Lemma export_exit a buckets n :
  quiet w -> snd (export w a buckets) = Raise (SystemExit n) -> n = 1.
Proof.
  intros (_ & _ & _ & _ & _ & W). unfold export.
  destruct (iterate buckets) as [items|e] eqn:I.
  - pose proof (bucket_rows_stopped items) as B.
    destruct (bucket_rows items) as [rows stopped].
    pose proof (W (output a) (csv_header :: rows) n) as Wn.
    unfold csv_header in Wn.
    destruct (write_csv w (output a) _) as [[]|[]]; cbn;
      try discriminate; try congruence.
    destruct stopped as [e|]; cbn; [| discriminate].
    intros [= ->]. discriminate (B _ eq_refl).
  - pose proof (W (output a) [csv_header] n) as Wn. unfold csv_header in Wn.
    destruct buckets; try discriminate I; injection I as <-;
      destruct (write_csv w (output a) _) as [[]|[]]; cbn;
      try discriminate; congruence.
Qed.

Lemma query_exit a u p payload n :
  quiet w -> snd (query w a u p payload) = Raise (SystemExit n) -> n = 1.
Proof.
  intros Q. pose proof Q as (_ & _ & _ & P & B & _).
  unfold query. fold (the_request a u p payload).
  pose proof (P (the_request a u p payload) n) as Pn.
  pose proof (B (the_request a u p payload)) as Bn.
  pose proof (export_exit a) as X.
  destruct (insecure a); cbn;
    (destruct (requests_post w _) as [[[] [data|e]]|e]; cbn;
     [ | specialize (Bn _ eq_refl n); cbn in Bn;
         destruct e; cbn; congruence
       | congruence
       | congruence
       | destruct e; cbn; congruence ]);
    (destruct (dict_get data _ _) as [aggregations|e1] eqn:D1; cbn;
     [ destruct (dict_get aggregations _ _) as [unique|e2] eqn:D2; cbn;
       [ destruct (dict_get unique _ _) as [buckets|e3] eqn:D3; cbn |] |];
     try (intros [= ->];
          match goal with
          | D : dict_get _ _ _ = Raise _ |- _ =>
              discriminate (dict_get_raises _ _ _ _ D)
          end));
    specialize (X buckets n Q);
    destruct (export w a buckets) as [tx rx]; cbn in *; exact X.
Qed.

Lemma confirm_no_exit prompt :
  quiet w -> no_exit (snd (confirm w prompt)).
Proof.
  intros (_ & I & _) n. specialize (I (prompt ++ lit " [y/N]: ") n).
  unfold confirm.
  destruct (stdin_input w _) as [line|[]]; cbn; congruence.
Qed.

(** X24: when nothing outside the script raises [SystemExit] into it, a
    run that ends on [sys.exit] ends with status 2, 0 or 1: with 2 it has
    opened no file, asked and printed nothing and sent nothing; with 0 it
    has asked the wildcard question and sent nothing; with 1 it has sent
    its request. *)
Theorem main_exit_statuses a n :
  quiet w ->
  snd (main cfg w a) = Raise (SystemExit n) ->
  (n = 2
   /\ opened (fst (main cfg w a)) = [] /\ printed (fst (main cfg w a)) = []
   /\ asked (fst (main cfg w a)) = false
   /\ posted (fst (main cfg w a)) = [] /\ written (fst (main cfg w a)) = [])
  \/ (n = 0
      /\ asked (fst (main cfg w a)) = true
      /\ posted (fst (main cfg w a)) = []
      /\ written (fst (main cfg w a)) = [])
  \/ (n = 1 /\ exists r, posted (fst (main cfg w a)) = [r]).
Proof.
  intros Q H. pose proof Q as (G & _ & R & _).
  destruct (main_run a)
    as [(P & W & _ & _ & [(E & O & S & K) | [(E & O & S & K & D)
                          | [(E & _) | (e & E & [F | [F | F]])]]])
       | (pre & u & p & sn & E & P & _)];
    cbn zeta in *.
  - left. rewrite H in E. injection E as ->. now repeat split.
  - right; left. rewrite H in E. injection E as ->. now repeat split.
  - rewrite H in E. discriminate E.
  - rewrite H in E. injection E as <-. now destruct (G _ _ F).
  - rewrite H in E. injection E as <-. now destruct (R _ _ F).
  - rewrite H in E. injection E as <-.
    now destruct (confirm_no_exit _ Q _ F).
  - right; right. rewrite E in H |- *. cbn [fst snd] in H |- *.
    split; [exact (query_exit _ _ _ _ _ Q H) |].
    destruct (query_quiet a u p (build_payload cfg sn (days a) (size a)))
      as (Pq & _).
    rewrite posted_app, P, Pq. eexists. reflexivity.
Qed.

(** X25: the wildcard question is asked only for an index with a
    wildcard, with [--allow-wildcard], without [--confirm] and without
    [--dry-run], and only once the input file has been opened. *)
Theorem main_asks_only_when a :
  asked (fst (main cfg w a)) = true ->
  contains star (index a) = true
  /\ allow_wildcard a = true
  /\ confirm_flag a = false
  /\ dry_run a = false
  /\ opened (fst (main cfg w a)) = [input a].
Proof.
  intros H.
  destruct (main_run a)
    as [(_ & _ & _ & K & _)
       | (pre & u & p & sn & E & _ & _ & _ & O & _ & K & _ & _ & _ & _ & _
          & _ & D & S)];
    cbn zeta in *.
  - exact (K H).
  - destruct (query_quiet a u p (build_payload cfg sn (days a) (size a)))
      as (_ & _ & Oq & Kq & _).
    rewrite E in H |- *. cbn [fst] in H |- *.
    rewrite asked_app, Kq, orb_false_r, K in H.
    rewrite opened_app, O, Oq.
    apply andb_true_iff in H as [S1 C%negb_true_iff].
    destruct (S S1) as (A & _). now repeat split.
Qed.

(** X26: the password is asked for at most once, and exactly when the
    run passes the wildcard check with a user name and without a
    password. *)
Theorem main_password_prompts a :
  password_prompts (fst (main cfg w a))
  = if negb (contains star (index a) && negb (allow_wildcard a))
       && truthy (username a) && negb (truthy (password a))
    then 1%nat else 0%nat.
Proof.
  destruct (main_run a)
    as [(_ & _ & G & _)
       | (pre & u & p & sn & E & _ & _ & _ & _ & G & _)];
    cbn zeta in *.
  - exact G.
  - destruct (query_quiet a u p (build_payload cfg sn (days a) (size a)))
      as (_ & _ & _ & _ & Gq).
    rewrite E. cbn [fst]. rewrite password_prompts_app, G, Gq. apply Nat.add_0_r.
Qed.

(** *** The answer of the server *)

(** A run that has issued a request is the run of [query] on it, after
    events that wrote nothing. *)
Lemma main_through_query a r :
  In r (posted (fst (main cfg w a))) ->
  exists pre u p payload,
    main cfg w a = (pre ++ fst (query w a u p payload),
                    snd (query w a u p payload))
    /\ written pre = []
    /\ r = the_request a u p payload.
Proof.
  intros H.
  destruct (main_run a)
    as [(P & _) | (pre & u & p & sn & E & P & W & _)];
    cbn zeta in *.
  - rewrite P in H. destruct H.
  - destruct (query_quiet a u p (build_payload cfg sn (days a) (size a)))
      as (Q & _).
    rewrite E in H. cbn [fst] in H. rewrite posted_app, P, Q in H.
    destruct H as [<-|[]]. eauto 10.
Qed.

Lemma query_failed a u p payload :
  requests_post w (the_request a u p payload) = Raise RequestException
  \/ (exists resp,
         requests_post w (the_request a u p payload) = Ok resp
         /\ (status_ok resp = false \/ body resp = Raise ValueError)) ->
  exists m,
    query w a u p payload
    = (request_events a u p payload ++ [LoggingError m],
       Raise (SystemExit 1)).
Proof.
  unfold query, request_events. fold (the_request a u p payload).
  intros [-> | (resp & -> & [S | B])].
  - destruct (insecure a); cbn; eexists; reflexivity.
  - rewrite S. destruct (insecure a); cbn; eexists; reflexivity.
  - rewrite B.
    destruct (insecure a), (status_ok resp); cbn; eexists; reflexivity.
Qed.

Lemma dict_get_item fields key default :
  dict_get (JDict fields) key default
  = Ok (match item key (JDict fields) with
        | Some v => v
        | None => default
        end).
Proof.
  unfold dict_get, item. now destruct (find _ fields) as [[? ?]|].
Qed.

Lemma query_without_buckets a u p payload resp data :
  requests_post w (the_request a u p payload) = Ok resp ->
  status_ok resp = true ->
  body resp = Ok data ->
  lacks_buckets data = true ->
  write_csv w (output a) [csv_header] = Ok tt ->
  query w a u p payload
  = (request_events a u p payload
     ++ [CsvWritten (output a) [csv_header];
         LoggingInfo (Success 0 (output a))],
     Ok tt).
Proof.
  unfold query, request_events. fold (the_request a u p payload).
  change (url (the_request a u p payload))
    with (rstrip_char 47 (es_url a) ++ lit "/" ++ index a ++ lit "/_search").
  intros -> -> -> L W.
  assert (X : export w a (JList [])
              = ([CsvWritten (output a) [csv_header];
                  LoggingInfo (Success 0 (output a))], Ok tt))
    by (unfold export; cbn [iterate bucket_rows]; fold csv_header;
        cbn [bind emit app]; rewrite W; reflexivity).
  destruct data as [| | | | |fields]; try discriminate L.
  unfold lacks_buckets in L. rewrite dict_get_item.
  destruct (item (lit "aggregations") (JDict fields))
    as [[| | | | |aggregations]|]; try discriminate L; cbn [rbind].
  - rewrite dict_get_item.
    destruct (item (lit "unique_destinations") (JDict aggregations))
      as [[| | | | |unique]|]; try discriminate L; cbn [rbind].
    + rewrite dict_get_item.
      destruct (item (lit "buckets") (JDict unique)); try discriminate L.
      destruct (insecure a); cbn; rewrite X; reflexivity.
    + destruct (insecure a); cbn; rewrite X; reflexivity.
  - destruct (insecure a); cbn; rewrite X; reflexivity.
Qed.

Lemma query_body_not_object a u p payload resp data :
  requests_post w (the_request a u p payload) = Ok resp ->
  status_ok resp = true ->
  body resp = Ok data ->
  (forall fields, data <> JDict fields) ->
  query w a u p payload
  = (request_events a u p payload, Raise AttributeError).
Proof.
  unfold query, request_events. fold (the_request a u p payload).
  intros -> -> -> N.
  destruct data as [| | | | |fields]; try now destruct (N fields).
  all: destruct (insecure a); reflexivity.
Qed.

(** X27: a run whose request fails (the transport raises, the status is
    an error, or the body is not JSON) logs an error as its last act, ends
    with status 1 and writes no output file. *)
Theorem main_request_failure a r :
  In r (posted (fst (main cfg w a))) ->
  requests_post w r = Raise RequestException
  \/ (exists resp,
         requests_post w r = Ok resp
         /\ (status_ok resp = false \/ body resp = Raise ValueError)) ->
  snd (main cfg w a) = Raise (SystemExit 1)
  /\ written (fst (main cfg w a)) = []
  /\ exists t m, fst (main cfg w a) = t ++ [LoggingError m].
Proof.
  intros H F.
  destruct (main_through_query a r H) as (pre & u & p & payload & -> & W & ->).
  destruct (query_failed a u p payload F) as (m & ->). cbn [fst snd].
  destruct (request_events_quiet a u p payload) as (_ & Wq & _).
  rewrite !written_app, W, Wq. repeat split.
  exists (pre ++ request_events a u p payload), m. now rewrite app_assoc.
Qed.

(** X28: when the body of the answer is an object without the list of
    buckets (no [aggregations], no [unique_destinations] in it, or no
    [buckets] in that), the run writes an output file with the header
    alone, logs zero destinations and ends normally. *)
Theorem main_answer_without_buckets a r resp data :
  In r (posted (fst (main cfg w a))) ->
  requests_post w r = Ok resp ->
  status_ok resp = true ->
  body resp = Ok data ->
  lacks_buckets data = true ->
  write_csv w (output a) [csv_header] = Ok tt ->
  snd (main cfg w a) = Ok tt
  /\ written (fst (main cfg w a)) = [(output a, [csv_header])]
  /\ exists t,
      fst (main cfg w a) = t ++ [LoggingInfo (Success 0 (output a))].
Proof.
  intros H R S B L W.
  destruct (main_through_query a r H) as (pre & u & p & payload & -> & Wp & ->).
  rewrite (query_without_buckets a u p payload resp data R S B L W).
  cbn [fst snd].
  destruct (request_events_quiet a u p payload) as (_ & Wq & _).
  rewrite !written_app, Wp, Wq. repeat split.
  exists (pre ++ request_events a u p payload
          ++ [CsvWritten (output a) [csv_header]]).
  now rewrite <- !app_assoc.
Qed.

(** X29: when the body of the answer is JSON but not an object, the run
    ends on an uncaught [AttributeError], with status 1, right after its
    request and without an output file. *)
Theorem main_answer_not_object a r resp data :
  In r (posted (fst (main cfg w a))) ->
  requests_post w r = Ok resp ->
  status_ok resp = true ->
  body resp = Ok data ->
  (forall fields, data <> JDict fields) ->
  snd (main cfg w a) = Raise AttributeError
  /\ exit_status (snd (main cfg w a)) = 1
  /\ written (fst (main cfg w a)) = []
  /\ exists t, fst (main cfg w a) = t ++ [HttpPost r].
Proof.
  intros H R S B N.
  destruct (main_through_query a r H) as (pre & u & p & payload & -> & Wp & ->).
  rewrite (query_body_not_object a u p payload resp data R S B N).
  cbn [fst snd exit_status].
  destruct (request_events_quiet a u p payload) as (_ & Wq & _).
  rewrite !written_app, Wp, Wq. repeat split.
  unfold request_events.
  exists (pre ++ (if insecure a then [WarningsDisabled] else [])
          ++ [LoggingInfo
                (QueryingElasticsearch (url (the_request a u p payload)))]).
  rewrite <- !app_assoc. reflexivity.
Qed.

(** *** The dry run *)

(** X30: a run with [--dry-run] that ends normally has opened the input
    file and printed the address, the index and the payload of the loaded
    subnets, in this order; it has asked nothing, sent nothing and written
    nothing, also for an index with a wildcard and without [--confirm]. *)
Theorem dry_run_completes a :
  dry_run a = true ->
  snd (main cfg w a) = Ok tt ->
  opened (fst (main cfg w a)) = [input a]
  /\ asked (fst (main cfg w a)) = false
  /\ posted (fst (main cfg w a)) = []
  /\ written (fst (main cfg w a)) = []
  /\ exists subnets,
      snd (load_subnets w (input a)) = Ok subnets
      /\ printed (fst (main cfg w a))
         = [DryRunEsUrl (es_url a); DryRunIndex (index a);
            JsonDumps (build_payload cfg subnets (days a) (size a)) 2].
Proof.
  intros D H.
  destruct (main_run a)
    as [(P & W & _ & _ & [(E & _) | [(E & _)
                          | [(_ & O & K & _ & S) | (e & E & _)]]])
       | (pre & u & p & sn & _ & _ & _ & _ & _ & _ & _ & _ & _ & _ & _ & _
          & _ & D' & _)];
    cbn zeta in *; try congruence.
  now repeat split.
Qed.

End Script.

End ElasticFlowMore.

(** ** The checker on concrete inputs *)

Module CidrCoverageMoreExamples.
Import PyFacts CidrCoverage CidrCoverageSpec CidrCoverageMoreSpec.
Import CidrCoverageMore Examples MoreExamples.



Lemma is_network_covered_first_match_witness :
  is_network_covered parse_network (3, 11)%nat (lit "10.1.2.0/24")
                     ([lit "10.0.0.0/8"] ++ [lit "::1/128"])
  = Ok (true, Some (lit "10.0.0.0/8")).
Proof.
  apply (is_network_covered_first_match parse_network (3, 11)%nat).
  vm_compute. reflexivity.
Defined.

Lemma is_network_covered_self_witness :
  is_network_covered parse_network (3, 11)%nat (lit "10.1.2.0/24")
                     [lit "10.1.2.0/24"; lit "::1/128"]
  = Ok (true, Some (lit "10.1.2.0/24")).
Proof.
  apply (is_network_covered_self parse_network (3, 11)%nat
           (lit "10.1.2.0/24") (make_network IPv4 167838208 24)).
  vm_compute. reflexivity.
Defined.

Lemma partition_routes_splits_witness :
  filter (reported_covered parse_network (3, 11)%nat [lit "10.0.0.0/8"])
         [lit "10.1.2.0/24"; lit "172.16.0.0/16"]
  = [lit "10.1.2.0/24"]
  /\ filter (fun e => negb (reported_covered parse_network (3, 11)%nat
                                             [lit "10.0.0.0/8"] e))
            [lit "10.1.2.0/24"; lit "172.16.0.0/16"]
     = [lit "172.16.0.0/16"].
Proof.
  destruct (partition_routes_splits parse_network (3, 11)%nat
              [lit "10.0.0.0/8"] [lit "10.1.2.0/24"; lit "172.16.0.0/16"]
              [(lit "10.1.2.0/24", Some (lit "10.0.0.0/8"))]
              [lit "172.16.0.0/16"]) as (C & U & _).
  - vm_compute. reflexivity.
  - split; [rewrite <- C | rewrite <- U]; reflexivity.
Defined.

Lemma read_cidrs_from_file_shape_witness :
  Forall (fun c => c <> []
                   /\ strip c = c
                   /\ contains arrow c = false
                   /\ valid parse_network c = true)
         [lit "10.0.0.0/8"; lit "192.168.1.0/24"].
Proof.
  apply (read_cidrs_from_file_shape parse_network
           (cidr_world missing (Readable three_lines None)) er_file
           [Stdout (InvalidCidrSkipped (lit "not-a-cidr"))]).
  vm_compute. reflexivity.
Defined.

Lemma read_cidrs_from_file_returns_witness :
  exists out cidrs,
    read_cidrs_from_file parse_network (cidr_world missing ms_one_route)
                         ms_file
    = (out, Ok cidrs)
    /\ forall e, files (cidr_world missing ms_one_route) ms_file
                 = OpenFails e ->
                 cidrs = [] /\ length out = 1%nat.
Proof.
  apply (read_cidrs_from_file_returns parse_network
           (cidr_world missing ms_one_route) ms_file).
  vm_compute. reflexivity.
Defined.

Lemma read_cidrs_from_file_bom_witness :
  read_cidrs_from_file parse_network
    (cidr_world (Readable (BOM :: lit "10.0.0.0/8" ++ nl) None) missing)
    ms_file
  = read_cidrs_from_file parse_network (cidr_world ms_one_route missing)
                         ms_file.
Proof.
  apply (read_cidrs_from_file_bom parse_network _ _ ms_file
           (lit "10.0.0.0/8" ++ nl) None); vm_compute; reflexivity.
Defined.

Lemma read_cidrs_from_file_crlf_witness :
  read_cidrs_from_file parse_network
    (cidr_world missing (Readable (to_crlf three_lines) None)) er_file
  = read_cidrs_from_file parse_network
      (cidr_world missing (Readable three_lines None)) er_file.
Proof.
  apply (read_cidrs_from_file_crlf parse_network _ _ er_file three_lines
           None); vm_compute; reflexivity.
Defined.

Lemma read_cidrs_from_file_reload_witness :
  read_cidrs_from_file parse_network
    (cidr_world
       (Readable (one_per_line [lit "10.0.0.0/8"; lit "192.168.1.0/24"])
                 None)
       missing)
    ms_file
  = ([], Ok [lit "10.0.0.0/8"; lit "192.168.1.0/24"]).
Proof.
  apply (read_cidrs_from_file_reload parse_network
           (cidr_world missing (Readable three_lines None)) er_file
           [Stdout (InvalidCidrSkipped (lit "not-a-cidr"))]).
  - vm_compute. reflexivity.
  - repeat constructor.
  - vm_compute. reflexivity.
Defined.

Lemma main_completes_witness :
  snd (main parse_network (3, 11)%nat (cidr_world ms_one_route er_two_routes))
  = Ok tt
  /\ exit_status
       (snd (main parse_network (3, 11)%nat
                  (cidr_world ms_one_route er_two_routes)))
     = 0.
Proof.
  destruct (main_completes parse_network (3, 11)%nat
              (cidr_world ms_one_route er_two_routes)
              [] [lit "10.0.0.0/8"] [] (lit "10.1.2.0/24")
              [lit "172.16.0.0/16"]
              [(lit "10.1.2.0/24", Some (lit "10.0.0.0/8"))]
              [lit "172.16.0.0/16"]) as (R & E & _);
    try (vm_compute; reflexivity).
  split; assumption.
Defined.

Lemma main_outcome_witness :
  snd (main parse_network (3, 11)%nat (cidr_world ms_one_route er_loopback6))
  = Raise TypeError.
Proof.
  rewrite (main_outcome parse_network (3, 11)%nat
             (cidr_world ms_one_route er_loopback6)
             [] [lit "10.0.0.0/8"] [] [lit "::1/128"]);
    vm_compute; reflexivity.
Defined.

End CidrCoverageMoreExamples.

(** ** The Elastiflow tool on concrete inputs *)

Module ElasticFlowMoreExamples.
Import PyFacts ElasticFlow ElasticFlowSpec ElasticFlowMoreSpec.
Import ElasticFlowMore Examples MoreExamples.

Lemma load_subnets_rows_witness :
  load_subnets (flow_site rows_with_blank (answer one_bucket))
               (lit "source_subnets.csv")
  = ([CsvOpened (lit "source_subnets.csv")], Ok two_subnets).
Proof.
  destruct (load_subnets_rows (flow_site rows_with_blank (answer one_bucket))
              (lit "source_subnets.csv") rows_with_blank eq_refl)
    as (subnets & -> & -> & _).
  vm_compute. reflexivity.
Defined.

Lemma build_payload_days_unchecked_witness :
  exists N,
    time_range (build_payload flow_config two_subnets (-3) 10000)
    = Some (JDict [(lit "gte", JStr (lit "now-" ++ N ++ lit "d/d"));
                   (lit "lte", JStr (lit "now/d"))])
    /\ (-3 = 0 -> N = lit "0")
    /\ (-3 < 0 ->
        exists D, N = lit "-" ++ D
                  /\ forallb isdigit D = true
                  /\ int_of_digits D = - -3).
Proof.
  apply (build_payload_days_unchecked flow_config two_subnets (-3) 10000).
  lia.
Defined.

Lemma export_rows_witness :
  export (flow_world (Ok (lit "y"))) (flow_args elastic true false)
         (JList [JDict bucket_fields])
  = ([CsvWritten (lit "destination_ips.csv")
                 [csv_header; [JStr (lit "192.0.2.1"); JInt 42]];
      LoggingInfo (Success 1 (lit "destination_ips.csv"))],
     Ok tt).
Proof.
  etransitivity.
  - exact (export_rows (flow_world (Ok (lit "y")))
             (flow_args elastic true false) [bucket_fields] eq_refl).
  - vm_compute. reflexivity.
Defined.

Lemma export_stops_at_bad_bucket_witness :
  export (flow_world (Ok (lit "y"))) (flow_args elastic true false)
         (JList [JDict bucket_fields; JInt 7; JDict bucket_fields])
  = ([CsvWritten (lit "destination_ips.csv")
                 [csv_header; [JStr (lit "192.0.2.1"); JInt 42]]],
     Raise AttributeError).
Proof.
  etransitivity.
  - apply (export_stops_at_bad_bucket (flow_world (Ok (lit "y")))
             (flow_args elastic true false) [bucket_fields] (JInt 7)
             [JDict bucket_fields]).
    + discriminate.
    + reflexivity.
  - vm_compute. reflexivity.
Defined.

Lemma main_request_guarded_witness :
  posted (fst (main flow_config (flow_world (Ok (lit "y")))
                    (flow_args elastic true false)))
  = [flow_request].
Proof.
  destruct (main_request_guarded flow_config (flow_world (Ok (lit "y")))
              (flow_args elastic true false) flow_request)
    as (u & p & subnets & P & _).
  - vm_compute. left. reflexivity.
  - exact P.
Defined.

Lemma main_exit_statuses_witness :
  asked (fst (main flow_config (flow_world (Ok (lit "n")))
                   (flow_args elastic true false))) = true
  /\ posted (fst (main flow_config (flow_world (Ok (lit "n")))
                       (flow_args elastic true false))) = []
  /\ written (fst (main flow_config (flow_world (Ok (lit "n")))
                        (flow_args elastic true false))) = [].
Proof.
  destruct (main_exit_statuses flow_config (flow_world (Ok (lit "n")))
              (flow_args elastic true false) 0)
    as [(E & _) | [(_ & K) | (E & _)]].
  - repeat split; intros; intro; try discriminate.
    match goal with H : _ = Ok _ |- _ => injection H as <- end.
    discriminate.
  - vm_compute. reflexivity.
  - discriminate E.
  - exact K.
  - discriminate E.
Defined.

Lemma main_asks_only_when_witness :
  contains star (lit "logs-*") = true
  /\ opened (fst (main flow_config (flow_world (Ok (lit "n")))
                       (flow_args elastic true false)))
     = [lit "source_subnets.csv"].
Proof.
  destruct (main_asks_only_when flow_config (flow_world (Ok (lit "n")))
              (flow_args elastic true false)) as (S & _ & _ & _ & O).
  - vm_compute. reflexivity.
  - split; [exact S | exact O].
Defined.

Lemma main_request_failure_witness :
  snd (main flow_config
            (flow_site rows_with_blank (Raise RequestException))
            (flow_args elastic true false))
  = Raise (SystemExit 1)
  /\ written (fst (main flow_config
                        (flow_site rows_with_blank (Raise RequestException))
                        (flow_args elastic true false)))
     = [].
Proof.
  destruct (main_request_failure flow_config
              (flow_site rows_with_blank (Raise RequestException))
              (flow_args elastic true false) flow_request)
    as (R & W & _).
  - vm_compute. left. reflexivity.
  - left. reflexivity.
  - split; assumption.
Defined.

Lemma main_answer_without_buckets_witness :
  snd (main flow_config (flow_site rows_with_blank (answer no_aggregations))
            (flow_args elastic true false))
  = Ok tt
  /\ written (fst (main flow_config
                        (flow_site rows_with_blank (answer no_aggregations))
                        (flow_args elastic true false)))
     = [(lit "destination_ips.csv", [csv_header])].
Proof.
  destruct (main_answer_without_buckets flow_config
              (flow_site rows_with_blank (answer no_aggregations))
              (flow_args elastic true false) flow_request
              {| status_ok := true; body := Ok no_aggregations |}
              no_aggregations)
    as (R & W & _); try reflexivity.
  - vm_compute. left. reflexivity.
  - split; assumption.
Defined.

Lemma main_answer_not_object_witness :
  snd (main flow_config (flow_site rows_with_blank (answer (JList [])))
            (flow_args elastic true false))
  = Raise AttributeError
  /\ exit_status
       (snd (main flow_config (flow_site rows_with_blank (answer (JList [])))
                  (flow_args elastic true false)))
     = 1
  /\ written (fst (main flow_config
                        (flow_site rows_with_blank (answer (JList [])))
                        (flow_args elastic true false)))
     = [].
Proof.
  destruct (main_answer_not_object flow_config
              (flow_site rows_with_blank (answer (JList [])))
              (flow_args elastic true false) flow_request
              {| status_ok := true; body := Ok (JList []) |} (JList []))
    as (R & E & W & _); try reflexivity.
  - vm_compute. left. reflexivity.
  - discriminate.
  - repeat split; assumption.
Defined.

Lemma dry_run_completes_witness :
  opened (fst (main flow_config (flow_world (Ok (lit "y")))
                    (flow_args elastic true true)))
  = [lit "source_subnets.csv"]
  /\ asked (fst (main flow_config (flow_world (Ok (lit "y")))
                      (flow_args elastic true true))) = false
  /\ posted (fst (main flow_config (flow_world (Ok (lit "y")))
                       (flow_args elastic true true))) = []
  /\ written (fst (main flow_config (flow_world (Ok (lit "y")))
                        (flow_args elastic true true))) = [].
Proof.
  destruct (dry_run_completes flow_config (flow_world (Ok (lit "y")))
              (flow_args elastic true true)) as (O & K & P & W & _).
  - reflexivity.
  - vm_compute. reflexivity.
  - repeat split; assumption.
Defined.

End ElasticFlowMoreExamples.
